(** * A shallow embedding of the chess rules engine (ChessEngine.py)

    The engine keeps one mutable [GameState] object.  Every method is
    embedded as a function that takes the state and returns the new state
    (and the Python return value, when there is one).  Methods that can
    raise [IndexError] ([make_move], [undo_move]) return [option].  *)

From Stdlib Require Import ZArith Bool Lia.
From stdpp Require Import base tactics option list numbers strings gmap.

Local Open Scope Z_scope.

(** ** Board entries

    A board entry is a two-character string: ['--'] for an empty square,
    otherwise a colour character (['w'], ['b']) followed by a kind
    character (['P'], ['R'], ['N'], ['B'], ['Q'], ['K']). *)

Inductive Colour : Type := White | Black.

Inductive Kind : Type := Pawn | Rook | Knight | Bishop | Queen | King.

Inductive Square : Type :=
| Empty
| Occ (c : Colour) (k : Kind).

#[global] Instance Colour_eq_dec : EqDecision Colour.
Proof. solve_decision. Defined.

#[global] Instance Kind_eq_dec : EqDecision Kind.
Proof. solve_decision. Defined.

#[global] Instance Square_eq_dec : EqDecision Square.
Proof. solve_decision. Defined.

(** [piece[0] == c] *)
Definition has_colour (p : Square) (c : Colour) : bool :=
  match p, c with
  | Occ White _, White => true
  | Occ Black _, Black => true
  | _, _ => false
  end.

(** [piece[1] == k] *)
Definition has_kind (p : Square) (k : Kind) : bool :=
  match p with
  | Occ _ k' => bool_decide (k' = k)
  | Empty => false
  end.

(** [piece == q] on whole strings *)
Definition square_eqb (p q : Square) : bool := bool_decide (p = q).

Definition other_colour (c : Colour) : Colour :=
  match c with White => Black | Black => White end.

(** ** Python lists indexed by integers

    [l[i]] accepts [0 <= i < len(l)], and [-len(l) <= i < 0] counting from
    the end; anything else raises [IndexError] ([None] here). *)

Definition py_index (n : nat) (i : Z) : option nat :=
  if bool_decide (0 <= i < Z.of_nat n) then Some (Z.to_nat i)
  else if bool_decide (- Z.of_nat n <= i < 0) then Some (Z.to_nat (Z.of_nat n + i))
  else None.

Definition py_get {A : Type} (l : list A) (i : Z) : option A :=
  k ← py_index (length l) i; l !! k.

Definition py_set {A : Type} (l : list A) (i : Z) (x : A) : option (list A) :=
  k ← py_index (length l) i; Some (<[k := x]> l).

(** [l.pop()]: the list without its last element, and that element. *)
Definition py_pop {A : Type} (l : list A) : option (list A * A) :=
  x ← list.last l; Some (take (length l - 1)%nat l, x).

(** [range(a, b)] and [range(a, b, -1)] *)
Definition range_up (a b : Z) : list Z := seqZ a (b - a).

Definition range_down (a b : Z) : list Z :=
  (fun k => a - k) <$> seqZ 0 (a - b).

(** The board: a list of rows. *)
Abbreviation Board := (list (list Square)).

(** [len(self.board)] *)
Definition blen (b : Board) : Z := Z.of_nat (length b).

(** [board[r][c]] as a value.  Every read of the engine's generators is
    guarded by a range test, so on an 8x8 board the default is never
    used. *)
Definition sq (b : Board) (r c : Z) : Square :=
  default Empty (row ← py_get b r; py_get row c).

(** [board[r][c] = p] *)
Definition board_set (b : Board) (r c : Z) (p : Square) : option Board :=
  row ← py_get b r;
  row' ← py_set row c p;
  py_set b r row'.

(** [0 <= x < n] *)
Definition in_range (n x : Z) : bool := (0 <=? x) && (x <? n).

(** ** Moves *)

Record Move : Type := mkMove {
  start_row : Z;
  start_column : Z;
  end_row : Z;
  end_column : Z;
  piece_moved : Square;
  piece_captured : Square;
  is_pawn_promotion : bool;
  is_en_passant_move : bool;
  is_castle_move : bool;
  is_capture : bool;
  move_id : Z
}.

#[global] Instance Move_eq_dec : EqDecision Move.
Proof. solve_decision. Defined.

(** [Move.__init__(start_square, end_square, board, en_passant,
    pawn_promotion, castle)] *)
Definition Move_init (start_square end_square : Z * Z) (b : Board)
    (en_passant pawn_promotion castle : bool) : Move :=
  let '(sr, sc) := start_square in
  let '(er, ec) := end_square in
  let moved := sq b sr sc in
  let captured := sq b er ec in
  let captured :=
    if en_passant then
      (if square_eqb moved (Occ Black Pawn) then Occ White Pawn else Occ Black Pawn)
    else captured in
  {| start_row := sr; start_column := sc; end_row := er; end_column := ec;
     piece_moved := moved; piece_captured := captured;
     is_pawn_promotion := pawn_promotion;
     is_en_passant_move := en_passant;
     is_castle_move := castle;
     is_capture := negb (square_eqb captured Empty);
     move_id := sr * 1000 + sc * 100 + er * 10 + ec |}.

#[global] Arguments Move_init : simpl never.

(** [Move.__eq__]: two moves are equal when their ids are. *)
Definition move_eqb (m1 m2 : Move) : bool := move_id m1 =? move_id m2.

(** ** Castle rights and the game state *)

Record CastleRights : Type := mkCastleRights {
  white_king_side : bool;
  black_king_side : bool;
  white_queen_side : bool;
  black_queen_side : bool
}.

(** A pin or a check: square and direction, [(row, column, d0, d1)]. *)
Definition Pin : Type := (Z * Z * Z * Z)%type.

Record GameState : Type := mkGameState {
  board : Board;
  white_to_move : bool;
  move_log : list Move;
  white_king_location : Z * Z;
  black_king_location : Z * Z;
  checkmate : bool;
  stalemate : bool;
  in_check : bool;
  pins : list Pin;
  checks : list Pin;
  en_passant_possible : option (Z * Z);
  en_passant_possible_log : list (option (Z * Z));
  white_castle_king_side : bool;
  white_castle_queen_side : bool;
  black_castle_king_side : bool;
  black_castle_queen_side : bool;
  castle_rights_log : list CastleRights
}.

Definition set_pins (s : GameState) (ps : list Pin) : GameState :=
  {| board := board s; white_to_move := white_to_move s;
     move_log := move_log s;
     white_king_location := white_king_location s;
     black_king_location := black_king_location s;
     checkmate := checkmate s; stalemate := stalemate s;
     in_check := in_check s; pins := ps; checks := checks s;
     en_passant_possible := en_passant_possible s;
     en_passant_possible_log := en_passant_possible_log s;
     white_castle_king_side := white_castle_king_side s;
     white_castle_queen_side := white_castle_queen_side s;
     black_castle_king_side := black_castle_king_side s;
     black_castle_queen_side := black_castle_queen_side s;
     castle_rights_log := castle_rights_log s |}.

Definition set_white_king_location (s : GameState) (k : Z * Z) : GameState :=
  {| board := board s; white_to_move := white_to_move s;
     move_log := move_log s;
     white_king_location := k;
     black_king_location := black_king_location s;
     checkmate := checkmate s; stalemate := stalemate s;
     in_check := in_check s; pins := pins s; checks := checks s;
     en_passant_possible := en_passant_possible s;
     en_passant_possible_log := en_passant_possible_log s;
     white_castle_king_side := white_castle_king_side s;
     white_castle_queen_side := white_castle_queen_side s;
     black_castle_king_side := black_castle_king_side s;
     black_castle_queen_side := black_castle_queen_side s;
     castle_rights_log := castle_rights_log s |}.

Definition set_black_king_location (s : GameState) (k : Z * Z) : GameState :=
  {| board := board s; white_to_move := white_to_move s;
     move_log := move_log s;
     white_king_location := white_king_location s;
     black_king_location := k;
     checkmate := checkmate s; stalemate := stalemate s;
     in_check := in_check s; pins := pins s; checks := checks s;
     en_passant_possible := en_passant_possible s;
     en_passant_possible_log := en_passant_possible_log s;
     white_castle_king_side := white_castle_king_side s;
     white_castle_queen_side := white_castle_queen_side s;
     black_castle_king_side := black_castle_king_side s;
     black_castle_queen_side := black_castle_queen_side s;
     castle_rights_log := castle_rights_log s |}.

(** [self.in_check, self.pins, self.checks = ...] *)
Definition set_analysis (s : GameState) (a : bool * list Pin * list Pin) : GameState :=
  {| board := board s; white_to_move := white_to_move s;
     move_log := move_log s;
     white_king_location := white_king_location s;
     black_king_location := black_king_location s;
     checkmate := checkmate s; stalemate := stalemate s;
     in_check := a.1.1; pins := a.1.2; checks := a.2;
     en_passant_possible := en_passant_possible s;
     en_passant_possible_log := en_passant_possible_log s;
     white_castle_king_side := white_castle_king_side s;
     white_castle_queen_side := white_castle_queen_side s;
     black_castle_king_side := black_castle_king_side s;
     black_castle_queen_side := black_castle_queen_side s;
     castle_rights_log := castle_rights_log s |}.

(** [self.checkmate = cm; self.stalemate = sm] *)
Definition set_terminal (s : GameState) (cm sm : bool) : GameState :=
  {| board := board s; white_to_move := white_to_move s;
     move_log := move_log s;
     white_king_location := white_king_location s;
     black_king_location := black_king_location s;
     checkmate := cm; stalemate := sm;
     in_check := in_check s; pins := pins s; checks := checks s;
     en_passant_possible := en_passant_possible s;
     en_passant_possible_log := en_passant_possible_log s;
     white_castle_king_side := white_castle_king_side s;
     white_castle_queen_side := white_castle_queen_side s;
     black_castle_king_side := black_castle_king_side s;
     black_castle_queen_side := black_castle_queen_side s;
     castle_rights_log := castle_rights_log s |}.

(** The snapshot [CastleRights(self.white_castle_king_side,
    self.black_castle_king_side, self.white_castle_queen_side,
    self.black_castle_queen_side)]. *)
Definition castle_snapshot (wk wq bk bq : bool) : CastleRights :=
  {| white_king_side := wk; black_king_side := bk;
     white_queen_side := wq; black_queen_side := bq |}.

(** [GameState.__init__] *)
Definition initial_board : Board :=
  [ [Occ Black Rook; Occ Black Knight; Occ Black Bishop; Occ Black Queen;
     Occ Black King; Occ Black Bishop; Occ Black Knight; Occ Black Rook];
    replicate 8 (Occ Black Pawn);
    replicate 8 Empty;
    replicate 8 Empty;
    replicate 8 Empty;
    replicate 8 Empty;
    replicate 8 (Occ White Pawn);
    [Occ White Rook; Occ White Knight; Occ White Bishop; Occ White Queen;
     Occ White King; Occ White Bishop; Occ White Knight; Occ White Rook] ].

Definition GameState_init : GameState :=
  {| board := initial_board;
     white_to_move := true;
     move_log := [];
     white_king_location := (7, 4);
     black_king_location := (0, 4);
     checkmate := false; stalemate := false; in_check := false;
     pins := []; checks := [];
     en_passant_possible := None;
     en_passant_possible_log := [None];
     white_castle_king_side := false;
     white_castle_queen_side := false;
     black_castle_king_side := false;
     black_castle_queen_side := false;
     castle_rights_log := [castle_snapshot false false false false] |}.

(** [update_castle_rights]: the body is [pass]. *)
Definition update_castle_rights (s : GameState) (move : Move) : GameState := s.

(** [move.piece_moved[0] + 'R'].  For the empty square Python would build
    the string ['-R']; no generated promotion moves an empty square, and
    the value is kept empty here. *)
Definition promoted (p : Square) : Square :=
  match p with
  | Occ c _ => Occ c Rook
  | Empty => Empty
  end.

(** [make_move] *)
Definition make_move (s : GameState) (move : Move) : option GameState :=
  b1 ← board_set (board s) (start_row move) (start_column move) Empty;
  b2 ← board_set b1 (end_row move) (end_column move) (piece_moved move);
  let log := move_log s ++ [move] in
  let wkl :=
    if square_eqb (piece_moved move) (Occ White King)
    then (end_row move, end_column move) else white_king_location s in
  let bkl :=
    if square_eqb (piece_moved move) (Occ White King) then black_king_location s
    else if square_eqb (piece_moved move) (Occ Black King)
    then (end_row move, end_column move) else black_king_location s in
  b3 ← (if is_pawn_promotion move
        then board_set b2 (end_row move) (end_column move) (promoted (piece_moved move))
        else Some b2);
  b4 ← (if is_en_passant_move move
        then board_set b3 (start_row move) (end_column move) Empty
        else Some b3);
  let ep :=
    if has_kind (piece_moved move) Pawn
       && (Z.abs (start_row move - end_row move) =? 2)
    then Some ((start_row move + end_row move) `div` 2, start_column move)
    else None in
  let s1 :=
    update_castle_rights
      {| board := b4; white_to_move := white_to_move s;
         move_log := log;
         white_king_location := wkl; black_king_location := bkl;
         checkmate := checkmate s; stalemate := stalemate s;
         in_check := in_check s; pins := pins s; checks := checks s;
         en_passant_possible := ep;
         en_passant_possible_log := en_passant_possible_log s ++ [ep];
         white_castle_king_side := white_castle_king_side s;
         white_castle_queen_side := white_castle_queen_side s;
         black_castle_king_side := black_castle_king_side s;
         black_castle_queen_side := black_castle_queen_side s;
         castle_rights_log := castle_rights_log s |} move in
  Some
    {| board := board s1; white_to_move := negb (white_to_move s1);
       move_log := move_log s1;
       white_king_location := white_king_location s1;
       black_king_location := black_king_location s1;
       checkmate := checkmate s1; stalemate := stalemate s1;
       in_check := in_check s1; pins := pins s1; checks := checks s1;
       en_passant_possible := en_passant_possible s1;
       en_passant_possible_log := en_passant_possible_log s1;
       white_castle_king_side := white_castle_king_side s1;
       white_castle_queen_side := white_castle_queen_side s1;
       black_castle_king_side := black_castle_king_side s1;
       black_castle_queen_side := black_castle_queen_side s1;
       castle_rights_log :=
         castle_rights_log s1 ++
           [castle_snapshot (white_castle_king_side s1) (white_castle_queen_side s1)
              (black_castle_king_side s1) (black_castle_queen_side s1)] |}.

(** [undo_move] *)
Definition undo_move (s : GameState) : option GameState :=
  if bool_decide (length (move_log s) = 0%nat) then Some s
  else
    '(log, move) ← py_pop (move_log s);
    b1 ← board_set (board s) (start_row move) (start_column move) (piece_moved move);
    b2 ← board_set b1 (end_row move) (end_column move) (piece_captured move);
    let wkl :=
      if square_eqb (piece_moved move) (Occ White King)
      then (start_row move, start_column move) else white_king_location s in
    let bkl :=
      if square_eqb (piece_moved move) (Occ White King) then black_king_location s
      else if square_eqb (piece_moved move) (Occ Black King)
      then (start_row move, start_column move) else black_king_location s in
    b4 ← (if is_en_passant_move move
          then b3 ← board_set b2 (end_row move) (end_column move) Empty;
               board_set b3 (start_row move) (end_column move) (piece_captured move)
          else Some b2);
    '(eplog, _) ← py_pop (en_passant_possible_log s);
    ep ← list.last eplog;
    '(crlog, _) ← py_pop (castle_rights_log s);
    castle_rights ← list.last crlog;
    Some
      {| board := b4; white_to_move := negb (white_to_move s);
         move_log := log;
         white_king_location := wkl; black_king_location := bkl;
         checkmate := false; stalemate := false;
         in_check := in_check s; pins := pins s; checks := checks s;
         en_passant_possible := ep;
         en_passant_possible_log := eplog;
         white_castle_king_side := white_king_side castle_rights;
         white_castle_queen_side := white_queen_side castle_rights;
         black_castle_king_side := black_king_side castle_rights;
         black_castle_queen_side := black_queen_side castle_rights;
         castle_rights_log := crlog |}.

(** ** The attack and pin analyzer *)

Definition directions8 : list (Z * Z) :=
  [(-1, 0); (0, -1); (1, 0); (0, 1); (-1, -1); (-1, 1); (1, -1); (1, 1)].

Definition knight_offsets : list (Z * Z) :=
  [(-2, -1); (-2, 1); (-1, -2); (-1, 2); (1, -2); (1, 2); (2, -1); (2, 1)].

(** [for j in range(len(l)): d = l[j]] *)
Definition enumerate {A : Type} (l : list A) : list (Z * A) :=
  zip (seqZ 0 (Z.of_nat (length l))) l.

(** The test that the piece [p] of the opponent, met at distance [i] on
    ray number [j], attacks along that ray. *)
Definition attack_pattern (j i : Z) (opponent : Colour) (p : Square) : bool :=
  ((0 <=? j) && (j <=? 3) && has_kind p Rook)
  || ((4 <=? j) && (j <=? 7) && has_kind p Bishop)
  || ((i =? 1) && has_kind p Pawn
      && ((bool_decide (opponent = White) && (6 <=? j) && (j <=? 7))
          || (bool_decide (opponent = Black) && (4 <=? j) && (j <=? 5))))
  || has_kind p Queen
  || ((i =? 1) && has_kind p King).

(** The result [(in_check, pins, checks)]. *)
Definition Analysis : Type := (bool * list Pin * list Pin)%type.

(** The inner loop of [check_for_pins_and_checks] over the distances
    [dists] of one ray; returning the accumulator is the [break]. *)
Fixpoint pin_ray (b : Board) (ally opponent : Colour) (start_row start_column : Z)
    (j : Z) (d : Z * Z) (dists : list Z) (possible_pin : option Pin)
    (acc : Analysis) : Analysis :=
  match dists with
  | [] => acc
  | i :: rest =>
    let end_row := start_row + d.1 * i in
    let end_column := start_column + d.2 * i in
    if in_range (blen b) end_row && in_range (blen b) end_column then
      let end_piece := sq b end_row end_column in
      if has_colour end_piece ally && negb (has_kind end_piece King) then
        match possible_pin with
        | None =>
          pin_ray b ally opponent start_row start_column j d rest
            (Some (end_row, end_column, d.1, d.2)) acc
        | Some _ => acc
        end
      else if has_colour end_piece opponent then
        if attack_pattern j i opponent end_piece then
          match possible_pin with
          | None => (true, acc.1.2, acc.2 ++ [(end_row, end_column, d.1, d.2)])
          | Some pp => (acc.1.1, acc.1.2 ++ [pp], acc.2)
          end
        else acc
      else
        pin_ray b ally opponent start_row start_column j d rest possible_pin acc
    else acc
  end.

(** The knight probe of [check_for_pins_and_checks]. *)
Definition knight_check (b : Board) (opponent : Colour) (start_row start_column : Z)
    (acc : Analysis) (m : Z * Z) : Analysis :=
  let end_row := start_row + m.1 in
  let end_column := start_column + m.2 in
  if in_range (blen b) end_row && in_range (blen b) end_column then
    let end_piece := sq b end_row end_column in
    if has_colour end_piece opponent && has_kind end_piece Knight
    then (true, acc.1.2, acc.2 ++ [(end_row, end_column, m.1, m.2)])
    else acc
  else acc.

(** [check_for_pins_and_checks] *)
Definition check_for_pins_and_checks (s : GameState) : Analysis :=
  let '(opponent, ally, (start_row, start_column)) :=
    if white_to_move s then (Black, White, white_king_location s)
    else (White, Black, black_king_location s) in
  let b := board s in
  let acc :=
    fold_left
      (fun acc jd =>
         pin_ray b ally opponent start_row start_column jd.1 jd.2
           (range_up 1 (blen b)) None acc)
      (enumerate directions8) (false, [], []) in
  fold_left (knight_check b opponent start_row start_column) knight_offsets acc.

(** The inner loop of [square_under_attack] over one ray: [true] is the
    [return True], [false] a [break] or the end of the ray. *)
Fixpoint attack_ray (b : Board) (ally opponent : Colour) (row column : Z)
    (j : Z) (d : Z * Z) (dists : list Z) : bool :=
  match dists with
  | [] => false
  | i :: rest =>
    let end_row := row + d.1 * i in
    let end_column := column + d.2 * i in
    if in_range (blen b) end_row && in_range (blen b) end_column then
      let end_piece := sq b end_row end_column in
      if has_colour end_piece ally then false
      else if has_colour end_piece opponent then
        attack_pattern j i opponent end_piece
      else attack_ray b ally opponent row column j d rest
    else false
  end.

Definition knight_attack (b : Board) (opponent : Colour) (row column : Z)
    (m : Z * Z) : bool :=
  let end_row := row + m.1 in
  let end_column := column + m.2 in
  if in_range (blen b) end_row && in_range (blen b) end_column then
    let end_piece := sq b end_row end_column in
    has_colour end_piece opponent && has_kind end_piece Knight
  else false.

(** [square_under_attack(row, column, ally)] *)
Definition square_under_attack (s : GameState) (row column : Z) (ally : Colour) : bool :=
  let opponent := if white_to_move s then Black else White in
  let b := board s in
  if existsb
       (fun jd => attack_ray b ally opponent row column jd.1 jd.2 (range_up 1 (blen b)))
       (enumerate directions8)
  then true
  else existsb (knight_attack b opponent row column) knight_offsets.

(** ** The move generators

    Each generator appends to [moves] and may change the state (the pin
    list, and the king cache while probing king moves); it returns both. *)

(** The pin met first by [for i in range(len(pins) - 1, -1, -1)] with
    [pins[i][0] == row and pins[i][1] == column]: the last one in the list. *)
Fixpoint last_pin_at (row column : Z) (ps : list Pin) : option Pin :=
  match ps with
  | [] => None
  | p :: rest =>
    match last_pin_at row column rest with
    | Some q => Some q
    | None => if (p.1.1.1 =? row) && (p.1.1.2 =? column) then Some p else None
    end
  end.

(** [l.remove(x)]: drops the first element equal to [x]. *)
Fixpoint remove_first {A : Type} (eqb : A -> A -> bool) (x : A) (l : list A) : list A :=
  match l with
  | [] => []
  | y :: rest => if eqb y x then rest else y :: remove_first eqb x rest
  end.

Definition pin_eqb (p q : Pin) : bool := bool_decide (p = q).

(** The pin lookup that opens every generator: [(piece_pinned,
    pin_direction, pins)], the pin being removed when [remove] holds. *)
Definition find_pin (row column : Z) (remove : bool) (ps : list Pin)
    : bool * option (Z * Z) * list Pin :=
  match last_pin_at row column ps with
  | Some p => (true, Some (p.1.2, p.2), if remove then remove_first pin_eqb p ps else ps)
  | None => (false, None, ps)
  end.

(** [sum(1 for r in board for piece in r if piece == p)] *)
Definition count_piece (b : Board) (p : Square) : Z :=
  Z.of_nat (length (filter (fun x => x = p) (concat b))).

(** The two scans of the en-passant test along the pawn's rank:
    [(attacking_piece, blocking_piece)]. *)
Definition en_passant_scan (b : Board) (row : Z) (opponent : Colour)
    (inside_range outside_range : list Z) : bool * bool :=
  let blocking_piece :=
    fold_left
      (fun blocking i => if negb (square_eqb (sq b row i) Empty) then true else blocking)
      inside_range false in
  fold_left
    (fun (ab : bool * bool) i =>
       let square := sq b row i in
       if has_colour square opponent && (has_kind square Rook || has_kind square Queen)
       then (true, ab.2)
       else if negb (square_eqb square Empty) then (ab.1, true)
       else ab)
    outside_range (false, blocking_piece).

(** The capture towards column [column + side] ([side] is [-1] for the
    left capture and [1] for the right one), with its en-passant case. *)
Definition pawn_capture (s : GameState) (row column side : Z)
    (piece_pinned : bool) (pin_direction : option (Z * Z))
    (move_amount back_row : Z) (opponent : Colour) (king_row king_column : Z)
    (promotion_allowed : bool) (moves : list Move) : list Move :=
  let b := board s in
  if (if side =? -1 then 0 <=? column - 1 else column + 1 <? 8)
     && in_range 8 (row + move_amount) then
    if negb piece_pinned || bool_decide (pin_direction = Some (move_amount, side)) then
      let target := sq b (row + move_amount) (column + side) in
      let moves :=
        if has_colour target opponent then
          if (row + move_amount =? back_row) && promotion_allowed then
            moves ++ [Move_init (row, column) (row + move_amount, column + side) b
                        false true false]
          else if negb (row + move_amount =? back_row) then
            moves ++ [Move_init (row, column) (row + move_amount, column + side) b
                        false false false]
          else moves
        else moves in
      if bool_decide (Some (row + move_amount, column + side) = en_passant_possible s) then
        let '(attacking_piece, blocking_piece) :=
          if king_row =? row then
            let '(inside_range, outside_range) :=
              if king_column <? column then
                if side =? -1
                then (range_up (king_column + 1) (column - 1),
                      range_up (column + 1) (blen b))
                else (range_up (king_column + 1) column,
                      range_up (column + 2) (blen b))
              else
                if side =? -1
                then (range_down (king_column - 1) column,
                      range_down (column - 2) (-1))
                else (range_down (king_column - 1) (column + 1),
                      range_down (column - 1) (-1)) in
            en_passant_scan b row opponent inside_range outside_range
          else (false, false) in
        if negb attacking_piece || blocking_piece then
          moves ++ [Move_init (row, column) (row + move_amount, column + side) b
                      true false false]
        else moves
      else moves
    else moves
  else moves.

(** [get_pawn_moves] *)
Definition get_pawn_moves (row column : Z) (moves : list Move) (s : GameState)
    : list Move * GameState :=
  let b := board s in
  let white_rooks_onboard := count_piece b (Occ White Rook) in
  let black_rooks_onboard := count_piece b (Occ Black Rook) in
  let '(piece_pinned, pin_direction, ps) := find_pin row column true (pins s) in
  let s := set_pins s ps in
  let '(move_amount, start_row, back_row, opponent, (king_row, king_column), rooks_alive) :=
    if white_to_move s
    then (-1, 6, 0, Black, white_king_location s, white_rooks_onboard)
    else (1, 1, 7, White, black_king_location s, black_rooks_onboard) in
  let promotion_allowed := rooks_alive <? 2 in
  let moves :=
    if in_range 8 (row + move_amount) then
      if square_eqb (sq b (row + move_amount) column) Empty then
        let moves :=
          if negb piece_pinned || bool_decide (pin_direction = Some (move_amount, 0)) then
            if (row + move_amount =? back_row) && promotion_allowed then
              moves ++ [Move_init (row, column) (row + move_amount, column) b
                          false true false]
            else if negb (row + move_amount =? back_row) then
              moves ++ [Move_init (row, column) (row + move_amount, column) b
                          false false false]
            else moves
          else moves in
        if (row =? start_row)
           && square_eqb (sq b (row + 2 * move_amount) column) Empty then
          moves ++ [Move_init (row, column) (row + 2 * move_amount, column) b
                      false false false]
        else moves
      else moves
    else moves in
  let moves :=
    pawn_capture s row column (-1) piece_pinned pin_direction move_amount back_row
      opponent king_row king_column promotion_allowed moves in
  let moves :=
    pawn_capture s row column 1 piece_pinned pin_direction move_amount back_row
      opponent king_row king_column promotion_allowed moves in
  (moves, s).

(** The inner loop of [get_rook_moves] and [get_bishop_moves] along the
    direction [d]. *)
Fixpoint slide (b : Board) (opponent : Colour) (row column : Z)
    (piece_pinned : bool) (pin_direction : option (Z * Z)) (d : Z * Z)
    (dists : list Z) (moves : list Move) : list Move :=
  match dists with
  | [] => moves
  | i :: rest =>
    let end_row := row + d.1 * i in
    let end_column := column + d.2 * i in
    if in_range (blen b) end_row && in_range (blen b) end_column then
      if negb piece_pinned
         || bool_decide (pin_direction = Some d)
         || bool_decide (pin_direction = Some (- d.1, - d.2)) then
        let end_piece := sq b end_row end_column in
        if square_eqb end_piece Empty then
          slide b opponent row column piece_pinned pin_direction d rest
            (moves ++ [Move_init (row, column) (end_row, end_column) b false false false])
        else if has_colour end_piece opponent then
          moves ++ [Move_init (row, column) (end_row, end_column) b false false false]
        else moves
      else slide b opponent row column piece_pinned pin_direction d rest moves
    else moves
  end.

Definition slide_all (b : Board) (opponent : Colour) (row column : Z)
    (piece_pinned : bool) (pin_direction : option (Z * Z))
    (directions : list (Z * Z)) (moves : list Move) : list Move :=
  fold_left
    (fun moves d =>
       slide b opponent row column piece_pinned pin_direction d
         (range_up 1 (blen b)) moves)
    directions moves.

(** [get_rook_moves] *)
Definition get_rook_moves (row column : Z) (moves : list Move) (s : GameState)
    : list Move * GameState :=
  let opponent := if white_to_move s then Black else White in
  let '(piece_pinned, pin_direction, ps) :=
    find_pin row column (negb (has_kind (sq (board s) row column) Queen)) (pins s) in
  let s := set_pins s ps in
  (slide_all (board s) opponent row column piece_pinned pin_direction
     [(-1, 0); (0, -1); (1, 0); (0, 1)] moves, s).

(** [get_knight_moves] *)
Definition get_knight_moves (row column : Z) (moves : list Move) (s : GameState)
    : list Move * GameState :=
  let opponent := if white_to_move s then Black else White in
  let '(piece_pinned, _, ps) := find_pin row column true (pins s) in
  let s := set_pins s ps in
  let b := board s in
  (fold_left
     (fun moves d =>
        let end_row := row + d.1 in
        let end_column := column + d.2 in
        if in_range (blen b) end_row && in_range (blen b) end_column then
          if negb piece_pinned then
            let end_piece := sq b end_row end_column in
            if has_colour end_piece opponent then
              moves ++ [Move_init (row, column) (end_row, end_column) b false false false]
            else if square_eqb end_piece Empty then
              moves ++ [Move_init (row, column) (end_row, end_column) b false false false]
            else moves
          else moves
        else moves)
     knight_offsets moves, s).

(** [get_bishop_moves] *)
Definition get_bishop_moves (row column : Z) (moves : list Move) (s : GameState)
    : list Move * GameState :=
  let opponent := if white_to_move s then Black else White in
  let '(piece_pinned, pin_direction, ps) := find_pin row column true (pins s) in
  let s := set_pins s ps in
  (slide_all (board s) opponent row column piece_pinned pin_direction
     [(-1, -1); (-1, 1); (1, 1); (1, -1)] moves, s).

(** [get_queen_moves] *)
Definition get_queen_moves (row column : Z) (moves : list Move) (s : GameState)
    : list Move * GameState :=
  let '(moves, s) := get_bishop_moves row column moves s in
  get_rook_moves row column moves s.

(** [(row_moves[i], column_moves[i])] *)
Definition king_offsets : list (Z * Z) :=
  [(-1, -1); (-1, 0); (-1, 1); (0, -1); (0, 1); (1, -1); (1, 0); (1, 1)].

Definition set_king_location (s : GameState) (ally : Colour) (k : Z * Z) : GameState :=
  match ally with
  | White => set_white_king_location s k
  | Black => set_black_king_location s k
  end.

(** One iteration of the loop of [get_king_moves]. *)
Definition king_step (row column : Z) (ally : Colour)
    (acc : list Move * GameState) (off : Z * Z) : list Move * GameState :=
  let '(moves, s) := acc in
  let end_row := row + off.1 in
  let end_column := column + off.2 in
  if in_range (blen (board s)) end_row && in_range (blen (board s)) end_column then
    let end_piece := sq (board s) end_row end_column in
    if negb (has_colour end_piece ally) then
      let s := set_king_location s ally (end_row, end_column) in
      let '(in_check, _, _) := check_for_pins_and_checks s in
      let moves :=
        if negb in_check
        then moves ++ [Move_init (row, column) (end_row, end_column) (board s) false false false]
        else moves in
      let s := set_king_location s ally (row, column) in
      (moves, s)
    else (moves, s)
  else (moves, s).

(** [get_king_moves]; [range(len(self.board))] indexes the two tuples of
    eight offsets. *)
Definition get_king_moves (row column : Z) (moves : list Move) (s : GameState)
    : list Move * GameState :=
  let ally := if white_to_move s then White else Black in
  fold_left (king_step row column ally)
    (take (length (board s)) king_offsets) (moves, s).

(** [self.move_functions[piece]] *)
Definition move_functions (piece : Kind)
    : Z -> Z -> list Move -> GameState -> list Move * GameState :=
  match piece with
  | Pawn => get_pawn_moves
  | Rook => get_rook_moves
  | Knight => get_knight_moves
  | Bishop => get_bishop_moves
  | Queen => get_queen_moves
  | King => get_king_moves
  end.

(** The body of the two loops of [get_all_possible_moves]. *)
Definition visit_square (row : Z) (acc : list Move * GameState) (column : Z)
    : list Move * GameState :=
  let '(moves, s) := acc in
  let p := sq (board s) row column in
  if (has_colour p White && white_to_move s)
     || (has_colour p Black && negb (white_to_move s)) then
    match p with
    | Occ _ piece => move_functions piece row column moves s
    | Empty => (moves, s)
    end
  else (moves, s).

Definition visit_row (acc : list Move * GameState) (row : Z) : list Move * GameState :=
  fold_left (visit_square row)
    (range_up 0 (Z.of_nat (length (default [] (py_get (board acc.2) row))))) acc.

(** [get_all_possible_moves] *)
Definition get_all_possible_moves (s : GameState) : list Move * GameState :=
  fold_left visit_row (range_up 0 (blen (board s))) ([], s).

(** The squares a piece may go to in order to answer a check by a piece
    that is not a knight: from the king towards the checking piece. *)
Fixpoint squares_towards (king_row king_column check_row check_column d0 d1 : Z)
    (dists : list Z) : list (Z * Z) :=
  match dists with
  | [] => []
  | i :: rest =>
    let valid_square := (king_row + d0 * i, king_column + d1 * i) in
    valid_square ::
      (if (valid_square.1 =? check_row) && (valid_square.2 =? check_column) then []
       else squares_towards king_row king_column check_row check_column d0 d1 rest)
  end.

(** [for i in range(len(valid_moves) - 1, -1, -1)] with [n] the number of
    indices left; [valid_moves.remove] drops the first move with the same
    [move_id]. *)
Fixpoint drop_unhelpful (valid_squares : list (Z * Z)) (n : nat)
    (valid_moves : list Move) : list Move :=
  match n with
  | O => valid_moves
  | S i =>
    match valid_moves !! i with
    | Some m =>
      if negb (has_kind (piece_moved m) King)
         && negb (bool_decide ((end_row m, end_column m) ∈ valid_squares))
      then drop_unhelpful valid_squares i (remove_first move_eqb m valid_moves)
      else drop_unhelpful valid_squares i valid_moves
    | None => valid_moves
    end
  end.

(** [get_valid_moves]: the list returned and the state left behind. *)
Definition get_valid_moves (s : GameState) : list Move * GameState :=
  let s := set_analysis s (check_for_pins_and_checks s) in
  let '(king_row, king_column) :=
    if white_to_move s then white_king_location s else black_king_location s in
  let '(valid_moves, s) :=
    if in_check s then
      match checks s with
      | [check] =>
        let '(valid_moves, s) := get_all_possible_moves s in
        let '(check_row, check_column, d0, d1) := check in
        let piece_checking := sq (board s) check_row check_column in
        let valid_squares :=
          if has_kind piece_checking Knight then [(check_row, check_column)]
          else squares_towards king_row king_column check_row check_column d0 d1
                 (range_up 1 (blen (board s))) in
        (drop_unhelpful valid_squares (length valid_moves) valid_moves, s)
      | _ => get_king_moves king_row king_column [] s
      end
    else get_all_possible_moves s in
  let s :=
    if bool_decide (length valid_moves = 0%nat) then
      if in_check s then set_terminal s true (stalemate s)
      else set_terminal s (checkmate s) true
    else set_terminal s false false in
  (valid_moves, s).

(** ** Playing games

    The presentation layer builds [Move(start, end, board)] from two
    clicks and takes the first legal move equal to it ([==] compares
    [move_id]), then calls [make_move]. *)

Definition play_move (s : GameState) (from_to : (Z * Z) * (Z * Z)) : option GameState :=
  let '(valid_moves, s) := get_valid_moves s in
  let wanted := Move_init from_to.1 from_to.2 (board s) false false false in
  m ← list_find (fun m => move_eqb wanted m = true) valid_moves;
  make_move s m.2.

Fixpoint play (s : GameState) (l : list ((Z * Z) * (Z * Z))) : option GameState :=
  match l with
  | [] => Some s
  | from_to :: rest => s' ← play_move s from_to; play s' rest
  end.

(** Perft: the number of leaves of the tree of legal moves of depth [depth]. *)
Fixpoint perft (depth : nat) (s : GameState) : option Z :=
  match depth with
  | O => Some 1
  | S d =>
    let '(valid_moves, s) := get_valid_moves s in
    foldl
      (fun total m => n ← total; s' ← make_move s m; k ← perft d s'; Some (n + k))
      (Some 0) valid_moves
  end.

(** ** Well-formed and reachable states *)

Definition on_board (r c : Z) : Prop := 0 <= r < 8 /\ 0 <= c < 8.

(** The board is a list of 8 rows of 8 entries. *)
Definition board_wf (b : Board) : Prop :=
  length b = 8%nat /\ Forall (fun row => length row = 8%nat) b.

(** The states on which no read of the generators leaves the board: an
    8x8 board and cached king locations on it. *)
Definition state_wf (s : GameState) : Prop :=
  board_wf (board s)
  /\ on_board (white_king_location s).1 (white_king_location s).2
  /\ on_board (black_king_location s).1 (black_king_location s).2.

(** The colour of the side to move. *)
Definition side_to_move (s : GameState) : Colour :=
  if white_to_move s then White else Black.

Definition king_location (s : GameState) (c : Colour) : Z * Z :=
  match c with
  | White => white_king_location s
  | Black => black_king_location s
  end.

(** The king cache of colour [c] agrees with the board: every square that
    holds a king of colour [c] is the cached location. *)
Definition king_sync (s : GameState) (c : Colour) : Prop :=
  forall r col, on_board r col ->
    sq (board s) r col = Occ c King -> king_location s c = (r, col).

(** [self.white_to_move = w] *)
Definition set_white_to_move (s : GameState) (w : bool) : GameState :=
  {| board := board s; white_to_move := w;
     move_log := move_log s;
     white_king_location := white_king_location s;
     black_king_location := black_king_location s;
     checkmate := checkmate s; stalemate := stalemate s;
     in_check := in_check s; pins := pins s; checks := checks s;
     en_passant_possible := en_passant_possible s;
     en_passant_possible_log := en_passant_possible_log s;
     white_castle_king_side := white_castle_king_side s;
     white_castle_queen_side := white_castle_queen_side s;
     black_castle_king_side := black_castle_king_side s;
     black_castle_queen_side := black_castle_queen_side s;
     castle_rights_log := castle_rights_log s |}.

(** After the side to move in [s] has played and the state is [s'], is its
    own king attacked?  [square_under_attack] takes the attackers to be the
    opponents of the side to move, so it is asked on [s'] with the turn
    given back to the mover. *)
Definition mover_king_attacked (s s' : GameState) : bool :=
  let mover := side_to_move s in
  let k := king_location s' mover in
  square_under_attack (set_white_to_move s' (white_to_move s)) k.1 k.2 mover.

(** The states the engine reaches from a new game: by a call of
    [get_valid_moves], by [make_move] on one of the moves that call
    returned, and by [undo_move]. *)
Inductive reachable : GameState -> Prop :=
| reach_init : reachable GameState_init
| reach_query s : reachable s -> reachable (get_valid_moves s).2
| reach_make s m s' :
    reachable s -> m ∈ (get_valid_moves s).1 ->
    make_move (get_valid_moves s).2 m = Some s' -> reachable s'
| reach_undo s s' : reachable s -> undo_move s = Some s' -> reachable s'.

(** The states reached by any sequence of [make_move] and [undo_move]
    calls, whatever the moves. *)
Inductive reachable_any : GameState -> Prop :=
| any_init : reachable_any GameState_init
| any_make s m s' : reachable_any s -> make_move s m = Some s' -> reachable_any s'
| any_undo s s' : reachable_any s -> undo_move s = Some s' -> reachable_any s'.

(** [undo_move] called [k] times. *)
Fixpoint iter_undo (k : nat) (s : GameState) : option GameState :=
  match k with
  | O => Some s
  | S k' => s' ← undo_move s; iter_undo k' s'
  end.

(** The fields that [get_valid_moves] does not own: everything but
    [in_check], [pins], [checks], [checkmate] and [stalemate]. *)
Definition core (s : GameState) :=
  (board s, white_to_move s, move_log s,
   white_king_location s, black_king_location s,
   en_passant_possible s, en_passant_possible_log s,
   (white_castle_king_side s, white_castle_queen_side s,
    black_castle_king_side s, black_castle_queen_side s),
   castle_rights_log s).

(** The pawn's direction, starting row and back row of a colour. *)
Definition move_amount_of (c : Colour) : Z := match c with White => -1 | Black => 1 end.

Definition start_row_of (c : Colour) : Z := match c with White => 6 | Black => 1 end.

Definition back_row_of (c : Colour) : Z := match c with White => 0 | Black => 7 end.

(** The shapes of the moves the generators build on the board [b] for the
    colour [c] when the en-passant target is [ep]. *)
Inductive generated (b : Board) (c : Colour) (ep : option (Z * Z)) : Move -> Prop :=
| gen_plain row col er ec :
    on_board row col -> on_board er ec ->
    has_kind (sq b row col) Pawn = false \/ Z.abs (row - er) <> 2 ->
    generated b c ep (Move_init (row, col) (er, ec) b false false false)
| gen_promotion row col ec :
    on_board row col -> on_board (row + move_amount_of c) ec ->
    sq b row col = Occ c Pawn ->
    generated b c ep (Move_init (row, col) (row + move_amount_of c, ec) b false true false)
| gen_two_step row col :
    on_board row col -> row = start_row_of c ->
    sq b row col = Occ c Pawn ->
    sq b (row + move_amount_of c) col = Empty ->
    sq b (row + 2 * move_amount_of c) col = Empty ->
    generated b c ep (Move_init (row, col) (row + 2 * move_amount_of c, col) b false false false)
| gen_en_passant row col ec :
    on_board row col -> on_board (row + move_amount_of c) ec ->
    ec <> col ->
    sq b row col = Occ c Pawn ->
    ep = Some (row + move_amount_of c, ec) ->
    generated b c ep (Move_init (row, col) (row + move_amount_of c, ec) b true false false).

(** The en-passant target, when there is one, is the empty square behind
    a pawn of the side that just moved. *)
Definition ep_ok (s : GameState) : Prop :=
  match en_passant_possible s with
  | None => True
  | Some (r, c) =>
    0 <= c < 8
    /\ r = start_row_of (other_colour (side_to_move s))
           + move_amount_of (other_colour (side_to_move s))
    /\ sq (board s) r c = Empty
    /\ sq (board s) (r + move_amount_of (other_colour (side_to_move s))) c
       = Occ (other_colour (side_to_move s)) Pawn
  end.

(** The current en-passant target and castle rights are the last entries
    of their logs. *)
Definition logs_ok (s : GameState) : Prop :=
  list.last (en_passant_possible_log s) = Some (en_passant_possible s)
  /\ list.last (castle_rights_log s)
     = Some (castle_snapshot (white_castle_king_side s) (white_castle_queen_side s)
               (black_castle_king_side s) (black_castle_queen_side s)).

(** The invariant of the reachable states. *)
Definition state_inv (s : GameState) : Prop :=
  state_wf s /\ king_sync s White /\ king_sync s Black /\ ep_ok s /\ logs_ok s.

(** The invariant holds however many moves are taken back. *)
Definition history_inv (s : GameState) : Prop :=
  forall k, exists s', iter_undo k s = Some s' /\ state_inv s'.

(** ** Concrete games *)

(** 1. e4 e5 2. Nf3 Bb4: the pawn on d2 is pinned by the bishop on b4. *)
Definition game_pinned_pawn : list ((Z * Z) * (Z * Z)) :=
  [((6, 4), (4, 4)); ((1, 4), (3, 4)); ((7, 6), (5, 5)); ((0, 5), (4, 1))].

Definition state_pinned_pawn : GameState :=
  Eval vm_compute in default GameState_init (play GameState_init game_pinned_pawn).

(** 1. d4 e6 2. Qd2 Bb4: the queen on d2 is pinned by the bishop on b4. *)
Definition game_pinned_queen : list ((Z * Z) * (Z * Z)) :=
  [((6, 3), (4, 3)); ((1, 4), (2, 4)); ((7, 3), (6, 3)); ((0, 5), (4, 1))].

Definition state_pinned_queen : GameState :=
  Eval vm_compute in default GameState_init (play GameState_init game_pinned_queen).

(** 1. e4 a5 2. e5 Ra6 3. Ke2 Rb6 4. Kf3 Rb5 5. Kg4 b6 6. Kh5 d5: the
    white king on h5, the white pawn on e5, the black pawn that just
    jumped to d5 and the black rook on b5 stand on one rank, with the
    black pawn on a5 behind the rook. *)
Definition game_en_passant : list ((Z * Z) * (Z * Z)) :=
  [((6, 4), (4, 4)); ((1, 0), (3, 0)); ((4, 4), (3, 4)); ((0, 0), (2, 0));
   ((7, 4), (6, 4)); ((2, 0), (2, 1)); ((6, 4), (5, 5)); ((2, 1), (3, 1));
   ((5, 5), (4, 6)); ((1, 1), (2, 1)); ((4, 6), (3, 7)); ((1, 3), (3, 3))].

Definition state_en_passant : GameState :=
  Eval vm_compute in default GameState_init (play GameState_init game_en_passant).

(** 1. e4 e5 *)
Definition game_open : list ((Z * Z) * (Z * Z)) :=
  [((6, 4), (4, 4)); ((1, 4), (3, 4))].

Definition state_open : GameState :=
  Eval vm_compute in default GameState_init (play GameState_init game_open).

(** The square [(er, ec)] lies on the line through [(row, col)] with
    direction [d]. *)
Definition on_axis (row col : Z) (d : Z * Z) (er ec : Z) : Prop :=
  exists k : Z, er = row + k * d.1 /\ ec = col + k * d.2.

(** The first move 1. e4 made on the new game without asking for the
    legal moves first. *)
Definition move_e4 : Move := Move_init (6, 4) (4, 4) initial_board false false false.

Definition state_after_e4 : GameState :=
  Eval vm_compute in default GameState_init (make_move GameState_init move_e4).

(** [moves'] holds the moves of [moves] and otherwise only moves with [Q]. *)
Definition extends (Q : Move -> Prop) (moves moves' : list Move) : Prop :=
  forall m, m ∈ moves' -> m ∈ moves \/ Q m.

(** ** Matching two clicks against the legal moves (ChessMain.main)

    [move = Move(player_clicks[0], player_clicks[1], board)], then the
    loop [for i in range(len(valid_moves)): if move == valid_moves[i]:
    pending_move = valid_moves[i]; break].  [None] is the case where the
    loop ends without a match and [pending_move] is left alone. *)
Definition find_pending_move (valid_moves : list Move) (b : Board)
    (click1 click2 : Z * Z) : option Move :=
  let move := Move_init click1 click2 b false false false in
  snd <$> list_find (fun m => move_eqb move m = true) valid_moves.

(** The squares of a move are on the board. *)
Definition move_on_board (m : Move) : Prop :=
  on_board (start_row m) (start_column m) /\ on_board (end_row m) (end_column m).

(** A state with the pin [(7, 1, 1, 1)] recorded for the knight on b1. *)
Definition state_knight_pinned : GameState := set_pins GameState_init [(7, 1, 1, 1)].


(** The all-false snapshot of the castle rights. *)
Definition no_castle_rights : CastleRights := castle_snapshot false false false false.

(** The directions of [get_rook_moves] and of [get_bishop_moves]. *)
Definition rook_directions : list (Z * Z) := [(-1, 0); (0, -1); (1, 0); (0, 1)].

Definition bishop_directions : list (Z * Z) := [(-1, -1); (-1, 1); (1, 1); (1, -1)].

(** [m] is a slide from [(row, column)] on the board [b] in one of the
    [directions]: it ends on the board after [i] steps, every square
    passed on the way is empty, and the end square holds no piece of the
    colour [own]. *)
Definition clear_slide (b : Board) (own : Colour) (row column : Z)
    (directions : list (Z * Z)) (m : Move) : Prop :=
  exists d i,
    d ∈ directions /\ 1 <= i
    /\ m = Move_init (row, column) (row + d.1 * i, column + d.2 * i) b false false false
    /\ on_board (row + d.1 * i) (column + d.2 * i)
    /\ (forall k, 1 <= k < i -> sq b (row + d.1 * k) (column + d.2 * k) = Empty)
    /\ has_colour (sq b (row + d.1 * i) (column + d.2 * i)) own = false.

(** [m] is a step of the king of the side to move of [s] from
    [(row, column)] to a neighbouring square of the board that holds no
    piece of its own colour and on which the analyzer, asked with the king
    cache set to that square, reports no check. *)
Definition safe_king_step (s : GameState) (row column : Z) (m : Move) : Prop :=
  exists off,
    off ∈ king_offsets
    /\ m = Move_init (row, column) (row + off.1, column + off.2) (board s) false false false
    /\ on_board (row + off.1) (column + off.2)
    /\ has_colour (sq (board s) (row + off.1) (column + off.2)) (side_to_move s) = false
    /\ (check_for_pins_and_checks
          (set_king_location s (side_to_move s) (row + off.1, column + off.2))).1.1 = false.

(** The fields that no move generator ever writes: everything but the pin
    list and the two king caches. *)
Definition generator_frame (s : GameState) :=
  (board s, white_to_move s, move_log s,
   (checkmate s, stalemate s, in_check s, checks s),
   en_passant_possible s, en_passant_possible_log s,
   (white_castle_king_side s, white_castle_queen_side s,
    black_castle_king_side s, black_castle_queen_side s),
   castle_rights_log s).

(** A position with white to move and the white king on e1 checked twice,
    by the rook on e8 and by the knight on d3. *)
Definition board_double_check : Board :=
  [ [Occ Black King; Empty; Empty; Empty; Occ Black Rook; Empty; Empty; Empty];
    replicate 8 Empty;
    replicate 8 Empty;
    replicate 8 Empty;
    replicate 8 Empty;
    [Empty; Empty; Empty; Occ Black Knight; Empty; Empty; Empty; Empty];
    replicate 8 Empty;
    [Occ White Rook; Empty; Empty; Empty; Occ White King; Empty; Empty; Empty] ].

Definition state_double_check : GameState :=
  {| board := board_double_check;
     white_to_move := true;
     move_log := [];
     white_king_location := (7, 4);
     black_king_location := (0, 0);
     checkmate := false; stalemate := false; in_check := false;
     pins := []; checks := [];
     en_passant_possible := None;
     en_passant_possible_log := [None];
     white_castle_king_side := false;
     white_castle_queen_side := false;
     black_castle_king_side := false;
     black_castle_queen_side := false;
     castle_rights_log := [castle_snapshot false false false false] |}.

(** The fields that [get_valid_moves] can only read: the board, the side
    to move, the move log, the en-passant target and its log, the castle
    flags and their log. *)
Definition persistent (s : GameState) :=
  (board s, white_to_move s, move_log s,
   en_passant_possible s, en_passant_possible_log s,
   (white_castle_king_side s, white_castle_queen_side s,
    black_castle_king_side s, black_castle_queen_side s),
   castle_rights_log s).

(** A position with white to move and the white king on e1 checked by the
    rook on e8 only. *)
Definition board_single_check : Board :=
  [ [Occ Black King; Empty; Empty; Empty; Occ Black Rook; Empty; Empty; Empty];
    replicate 8 Empty;
    replicate 8 Empty;
    replicate 8 Empty;
    replicate 8 Empty;
    replicate 8 Empty;
    replicate 8 Empty;
    [Occ White Rook; Empty; Empty; Empty; Occ White King; Empty; Empty; Empty] ].

Definition state_single_check : GameState :=
  {| board := board_single_check;
     white_to_move := true;
     move_log := [];
     white_king_location := (7, 4);
     black_king_location := (0, 0);
     checkmate := false; stalemate := false; in_check := false;
     pins := []; checks := [];
     en_passant_possible := None;
     en_passant_possible_log := [None];
     white_castle_king_side := false;
     white_castle_queen_side := false;
     black_castle_king_side := false;
     black_castle_queen_side := false;
     castle_rights_log := [castle_snapshot false false false false] |}.

(** ** Notation (class [Move])

    A Python [dict] is a finite map; indexing a missing key raises
    [KeyError] ([None] here).  [py_dict] builds the map of a dict display
    or comprehension from its items in order, a later item replacing an
    earlier one with the same key. *)

Definition py_dict `{Countable K} {V : Type} (items : list (K * V)) : gmap K V :=
  foldl (fun d kv => <[kv.1 := kv.2]> d) ∅ items.

Definition ranks_to_rows_items : list (string * Z) :=
  [("1", 7); ("2", 6); ("3", 5); ("4", 4); ("5", 3); ("6", 2); ("7", 1); ("8", 0)]%string.

Definition ranks_to_rows : gmap string Z := py_dict ranks_to_rows_items.

(** [{v: k for k, v in ranks_to_rows.items()}] *)
Definition rows_to_ranks : gmap Z string :=
  py_dict ((fun kv => (kv.2, kv.1)) <$> ranks_to_rows_items).

Definition files_to_columns_items : list (string * Z) :=
  [("a", 0); ("b", 1); ("c", 2); ("d", 3); ("e", 4); ("f", 5); ("g", 6); ("h", 7)]%string.

Definition files_to_columns : gmap string Z := py_dict files_to_columns_items.

(** [{v: k for k, v in files_to_columns.items()}] *)
Definition columns_to_files : gmap Z string :=
  py_dict ((fun kv => (kv.2, kv.1)) <$> files_to_columns_items).

(** [get_rank_file(row, col)] *)
Definition get_rank_file (row col : Z) : option string :=
  file ← columns_to_files !! col;
  rank ← rows_to_ranks !! row;
  Some (file +:+ rank).

(** [get_chess_notation] *)
Definition get_chess_notation (m : Move) : option string :=
  a ← get_rank_file (start_row m) (start_column m);
  b ← get_rank_file (end_row m) (end_column m);
  Some (a +:+ b).

(** [piece[1]] as a string. *)
Definition kind_letter (p : Square) : string :=
  match p with
  | Empty => "-"
  | Occ _ Pawn => "P"
  | Occ _ Rook => "R"
  | Occ _ Knight => "N"
  | Occ _ Bishop => "B"
  | Occ _ Queen => "Q"
  | Occ _ King => "K"
  end.

(** [Move.__str__] *)
Definition Move_str (m : Move) : option string :=
  if is_castle_move m then
    Some (if end_column m =? 6 then "O-O" else "O-O-O")
  else
    end_sq ← get_rank_file (end_row m) (end_column m);
    if has_kind (piece_moved m) Pawn then
      if is_capture m && is_pawn_promotion m then Some (end_sq +:+ "=R")
      else if is_capture m then
        file ← columns_to_files !! start_column m;
        Some (file +:+ "x" +:+ end_sq)
      else Some end_sq
    else
      let move_str := kind_letter (piece_moved m) in
      let move_str := if is_capture m then move_str +:+ "x" else move_str in
      Some (move_str +:+ end_sq).

(** [m] is a knight's jump from [(row, column)] on the board [b] to a
    square of the board that holds no piece of the colour [own]. *)
Definition knight_jump (b : Board) (own : Colour) (row column : Z) (m : Move) : Prop :=
  exists d,
    d ∈ knight_offsets
    /\ m = Move_init (row, column) (row + d.1, column + d.2) b false false false
    /\ on_board (row + d.1) (column + d.2)
    /\ has_colour (sq b (row + d.1) (column + d.2)) own = false.

(** The number of rooks of the side to move on the board. *)
Definition rooks_alive (s : GameState) : Z :=
  count_piece (board s) (Occ (side_to_move s) Rook).

(** What [get_pawn_moves] guarantees of the move [m] it appends for the
    pawn on [(row, column)]: it starts there and ends one or two rows
    ahead, it is flagged as a promotion exactly when it is not an en
    passant capture and ends on the back row, and then the side has fewer
    than two rooks. *)
Definition pawn_move_shape (s : GameState) (row column : Z) (m : Move) : Prop :=
  (start_row m, start_column m) = (row, column)
  /\ (end_row m = row + move_amount_of (side_to_move s)
      \/ (end_row m = row + 2 * move_amount_of (side_to_move s)
          /\ row = start_row_of (side_to_move s)))
  /\ (is_pawn_promotion m = true
      <-> is_en_passant_move m = false /\ end_row m = back_row_of (side_to_move s))
  /\ (is_pawn_promotion m = true -> rooks_alive s < 2).

(** ** The Teleswap action (ChessMain.main)

    The presentation layer swaps the selected king or queen with the first
    queen or king of the same colour that the row-major search of the
    board finds, writing to [game_state.board] directly. *)







(** * Properties *)

(** ** Python lists and the board *)

Lemma py_index_in (n : nat) (i : Z) :
  0 <= i < Z.of_nat n -> py_index n i = Some (Z.to_nat i).
Proof. intros H. unfold py_index. rewrite bool_decide_eq_true_2; auto. Qed.

Lemma in_range_true (n x : Z) : in_range n x = true <-> 0 <= x < n.
Proof. unfold in_range. rewrite andb_true_iff, Z.leb_le, Z.ltb_lt. tauto. Qed.

Lemma blen_wf (b : Board) : board_wf b -> blen b = 8.
Proof. intros [H _]. unfold blen. rewrite H. reflexivity. Qed.

Lemma sq_lookup (b : Board) (r c : Z) :
  board_wf b -> on_board r c ->
  exists row, b !! Z.to_nat r = Some row /\ length row = 8%nat
              /\ row !! Z.to_nat c = Some (sq b r c).
Proof.
  intros [Hlen Hrows] [Hr Hc].
  destruct (lookup_lt_is_Some_2 b (Z.to_nat r)) as [row Hrow]; [lia|].
  assert (Hl : length row = 8%nat).
  { rewrite List.Forall_forall in Hrows. apply Hrows.
    apply list_elem_of_In, list_elem_of_lookup. eauto. }
  destruct (lookup_lt_is_Some_2 row (Z.to_nat c)) as [p Hp]; [lia|].
  exists row. split; [assumption|]. split; [assumption|].
  unfold sq, py_get. rewrite py_index_in by lia. simpl. rewrite Hrow. simpl.
  rewrite py_index_in by lia. simpl. rewrite Hp. reflexivity.
Qed.

Lemma board_set_spec (b : Board) (r c : Z) (p : Square) :
  board_wf b -> on_board r c ->
  exists b', board_set b r c p = Some b' /\ board_wf b'
    /\ sq b' r c = p
    /\ forall r' c', on_board r' c' -> (r', c') <> (r, c) -> sq b' r' c' = sq b r' c'.
Proof.
  intros Hwf Hon.
  destruct (sq_lookup b r c Hwf Hon) as (row & Hrow & Hl & Hp).
  destruct Hwf as [Hlen Hrows]. destruct Hon as [Hr Hc].
  set (row' := <[Z.to_nat c := p]> row).
  set (b' := <[Z.to_nat r := row']> b).
  assert (Hwf' : board_wf b').
  { split.
    - unfold b'. rewrite length_insert. assumption.
    - unfold b'. apply Forall_insert; [assumption|].
      unfold row'. rewrite length_insert. assumption. }
  exists b'. split.
  { unfold board_set, py_get, py_set. rewrite py_index_in by lia. simpl.
    rewrite Hrow. simpl. rewrite py_index_in by lia. reflexivity. }
  split; [assumption|].
  assert (Hget : forall r' c', on_board r' c' ->
            sq b' r' c' = default Empty (row ← b' !! Z.to_nat r'; row !! Z.to_nat c')).
  { intros r' c' Hon'.
    destruct (sq_lookup b' r' c' Hwf' Hon') as (rw & Hrw & _ & Hq).
    rewrite Hrw. simpl. rewrite Hq. reflexivity. }
  split.
  - rewrite Hget by (split; assumption). unfold b'.
    rewrite list_lookup_insert_eq by lia. simpl. unfold row'.
    rewrite list_lookup_insert_eq by lia. reflexivity.
  - intros r' c' Hon' Hne. rewrite Hget by assumption.
    destruct (sq_lookup b r' c' (conj Hlen Hrows) Hon') as (rw & Hrw & _ & Hq).
    destruct Hon' as [Hr' Hc'].
    destruct (decide (r' = r)) as [->|Hrne].
    + unfold b'. rewrite list_lookup_insert_eq by lia. simpl.
      unfold row'. rewrite list_lookup_insert_ne by (intros E; apply Hne; f_equal; lia).
      rewrite Hrow in Hrw. injection Hrw as <-. rewrite Hq. reflexivity.
    + unfold b'. rewrite list_lookup_insert_ne by lia.
      rewrite Hrw. simpl. rewrite Hq. reflexivity.
Qed.

Lemma board_ext (b1 b2 : Board) :
  board_wf b1 -> board_wf b2 ->
  (forall r c, on_board r c -> sq b1 r c = sq b2 r c) -> b1 = b2.
Proof.
  intros Hwf1 Hwf2 Heq.
  apply list_eq_same_length with (n := 8%nat); [apply Hwf2 | apply Hwf1 |].
  intros i row1 row2 Hi H1 H2.
  apply list_eq_same_length with (n := 8%nat).
  - destruct Hwf2 as [_ F]. rewrite List.Forall_forall in F. apply F.
    apply list_elem_of_In, list_elem_of_lookup. eauto.
  - destruct Hwf1 as [_ F]. rewrite List.Forall_forall in F. apply F.
    apply list_elem_of_In, list_elem_of_lookup. eauto.
  - intros j p1 p2 Hj Hp1 Hp2.
    assert (Hon : on_board (Z.of_nat i) (Z.of_nat j)) by (unfold on_board; lia).
    specialize (Heq _ _ Hon).
    destruct (sq_lookup b1 _ _ Hwf1 Hon) as (r1 & Hr1 & _ & Hq1).
    destruct (sq_lookup b2 _ _ Hwf2 Hon) as (r2 & Hr2 & _ & Hq2).
    rewrite Nat2Z.id in *. congruence.
Qed.

(** ** The history logs *)

Lemma py_pop_snoc {A : Type} (l : list A) (x : A) : py_pop (l ++ [x]) = Some (l, x).
Proof.
  unfold py_pop. rewrite last_snoc. simpl. rewrite length_app. simpl.
  replace (length l + 1 - 1)%nat with (length l) by lia.
  rewrite take_app_length. reflexivity.
Qed.

Lemma py_pop_length {A : Type} (l l' : list A) (x : A) :
  py_pop l = Some (l', x) -> length l = S (length l').
Proof.
  unfold py_pop. intros H.
  destruct (list.last l) as [y|] eqn:E; simpl in H; [|discriminate].
  injection H as <- <-.
  destruct l as [|a l]; [discriminate|]. simpl.
  rewrite length_take. simpl. lia.
Qed.

Lemma make_move_logs (s s' : GameState) (m : Move) :
  make_move s m = Some s' ->
  move_log s' = move_log s ++ [m]
  /\ en_passant_possible_log s' = en_passant_possible_log s ++ [en_passant_possible s']
  /\ castle_rights_log s'
     = castle_rights_log s ++
         [castle_snapshot (white_castle_king_side s') (white_castle_queen_side s')
            (black_castle_king_side s') (black_castle_queen_side s')].
Proof.
  unfold make_move. intros H.
  destruct (board_set (board s) _ _ _) as [b1|]; simpl in H; [|discriminate].
  destruct (board_set b1 _ _ _) as [b2|]; simpl in H; [|discriminate].
  destruct (if is_pawn_promotion m then _ else _) as [b3|]; simpl in H; [|discriminate].
  destruct (if is_en_passant_move m then _ else _) as [b4|]; simpl in H; [|discriminate].
  injection H as <-. simpl. auto.
Qed.

Lemma undo_move_logs (s s' : GameState) :
  undo_move s = Some s' ->
  s' = s
  \/ (exists m, move_log s = move_log s' ++ [m])
     /\ length (en_passant_possible_log s) = S (length (en_passant_possible_log s'))
     /\ length (castle_rights_log s) = S (length (castle_rights_log s')).
Proof.
  unfold undo_move. intros H. case_bool_decide as Hlen.
  { left. congruence. }
  right.
  destruct (py_pop (move_log s)) as [[log m]|] eqn:Hlog; simpl in H; [|discriminate].
  destruct (board_set (board s) _ _ _) as [b1|]; simpl in H; [|discriminate].
  destruct (board_set b1 _ _ _) as [b2|]; simpl in H; [|discriminate].
  destruct (if is_en_passant_move m then _ else _) as [b4|]; simpl in H; [|discriminate].
  destruct (py_pop (en_passant_possible_log s)) as [[eplog e]|] eqn:Hep; simpl in H; [|discriminate].
  destruct (list.last eplog) as [ep|]; simpl in H; [|discriminate].
  destruct (py_pop (castle_rights_log s)) as [[crlog cr]|] eqn:Hcr; simpl in H; [|discriminate].
  destruct (list.last crlog) as [rights|]; simpl in H; [|discriminate].
  injection H as <-. simpl.
  split.
  - exists m. unfold py_pop in Hlog.
    destruct (list.last (move_log s)) as [y|] eqn:E; simpl in Hlog; [|discriminate].
    injection Hlog as <- <-.
    destruct (move_log s) as [|a l] eqn:El using rev_ind; [discriminate|].
    rewrite last_snoc in E. injection E as ->.
    rewrite length_app. simpl.
    replace (length l + 1 - 1)%nat with (length l) by lia.
    rewrite take_app_length. reflexivity.
  - split; eapply py_pop_length; eassumption.
Qed.

(** C9: after every call of a sequence of [make_move] and [undo_move]
    calls from a new game, each of the en-passant log and the
    castle-rights log has one entry more than the move log. *)
Theorem C9_log_lengths (s : GameState) :
  reachable_any s ->
  length (en_passant_possible_log s) = S (length (move_log s))
  /\ length (castle_rights_log s) = S (length (move_log s)).
Proof.
  induction 1 as [|s m s' _ [IH1 IH2] Hm|s s' _ [IH1 IH2] Hu].
  - split; reflexivity.
  - destruct (make_move_logs _ _ _ Hm) as (-> & -> & ->).
    rewrite !length_app. simpl. lia.
  - destruct (undo_move_logs _ _ Hu) as [->|([m Hm] & He & Hc)]; [auto|].
    rewrite Hm, length_app in IH1, IH2. simpl in *. lia.
Qed.

Lemma C9_log_lengths_witness :
  length (en_passant_possible_log state_after_e4) = S (length (move_log state_after_e4))
  /\ length (castle_rights_log state_after_e4) = S (length (move_log state_after_e4)).
Proof.
  apply (C9_log_lengths state_after_e4).
  apply (any_make GameState_init move_e4); [apply any_init | reflexivity].
Defined.

(** ** Games played through the engine are reachable *)

(** Membership in a computed list is settled by looking for the index. *)
Ltac find_index n :=
  first
    [ apply (list_elem_of_lookup_2 _ n); vm_compute; reflexivity
    | match n with
      | O => fail 1
      | S ?k => find_index k
      end ].

Ltac by_lookup := find_index 60%nat.

Lemma play_move_reachable (s s' : GameState) (ft : (Z * Z) * (Z * Z)) :
  reachable s -> play_move s ft = Some s' -> reachable s'.
Proof.
  intros Hs. unfold play_move.
  destruct (get_valid_moves s) as [valid_moves s0] eqn:Hv.
  intros H.
  destruct (list_find _ valid_moves) as [[i m]|] eqn:Hf; simpl in H; [|discriminate].
  apply list_find_Some in Hf as (Hi & _ & _).
  apply (reach_make s m s' Hs).
  - rewrite Hv. simpl. apply list_elem_of_lookup. eauto.
  - rewrite Hv. exact H.
Qed.

Lemma play_reachable (l : list ((Z * Z) * (Z * Z))) (s s' : GameState) :
  reachable s -> play s l = Some s' -> reachable s'.
Proof.
  revert s. induction l as [|ft l IH]; intros s Hs H; simpl in H.
  - injection H as <-. exact Hs.
  - destruct (play_move s ft) as [s1|] eqn:E; simpl in H; [|discriminate].
    eapply IH; [|exact H]. eapply play_move_reachable; eassumption.
Qed.

Lemma state_open_reachable : reachable state_open.
Proof. apply (play_reachable game_open GameState_init); [constructor | vm_compute; reflexivity]. Qed.

Lemma state_pinned_pawn_reachable : reachable state_pinned_pawn.
Proof.
  apply (play_reachable game_pinned_pawn GameState_init); [constructor | vm_compute; reflexivity].
Qed.

Lemma state_pinned_queen_reachable : reachable state_pinned_queen.
Proof.
  apply (play_reachable game_pinned_queen GameState_init); [constructor | vm_compute; reflexivity].
Qed.

Lemma state_en_passant_reachable : reachable state_en_passant.
Proof.
  apply (play_reachable game_en_passant GameState_init); [constructor | vm_compute; reflexivity].
Qed.

(** ** Move counts from the starting position *)

(** C3: from the starting position [get_valid_moves] returns 20 moves, and
    the replies to these 20 moves number 400 in total. *)
Theorem C3_perft_start :
  length (get_valid_moves GameState_init).1 = 20%nat
  /\ perft 1 GameState_init = Some 20
  /\ perft 2 GameState_init = Some 400.
Proof. vm_compute. auto. Qed.

(** ** Moves that leave the mover's king attacked *)

(** C1 (violated): after 1. e4 e5 2. Nf3 Bb4, a reachable state, the list
    of [get_valid_moves] holds the move d2-d4 of the pinned pawn; after
    [make_move] the white king is attacked, and the list of black's
    replies holds the capture of the white king. *)
Theorem C1_self_check_move_generated :
  reachable state_pinned_pawn
  /\ exists m s',
       make_move (get_valid_moves state_pinned_pawn).2 m = Some s'
       /\ m ∈ (get_valid_moves state_pinned_pawn).1
       /\ (start_row m, start_column m, end_row m, end_column m) = (6, 3, 4, 3)
       /\ mover_king_attacked state_pinned_pawn s' = true
       /\ exists reply, reply ∈ (get_valid_moves s').1
                        /\ piece_captured reply = Occ White King.
Proof.
  split; [exact state_pinned_pawn_reachable|].
  exists (Move_init (6, 3) (4, 3) (board state_pinned_pawn) false false false).
  eexists. split; [vm_compute; reflexivity|].
  split; [by_lookup|].
  split; [reflexivity|].
  split; [vm_compute; reflexivity|].
  eexists. split; [apply (list_elem_of_lookup_2 _ 33%nat); vm_compute; reflexivity|].
  reflexivity.
Qed.

(** ** Pinned pieces *)

(** C4 (violated): after 1. e4 e5 2. Nf3 Bb4 the analyzer reports the
    white pawn on d2 as pinned in the direction of b4, and
    [get_pawn_moves] generates its two-step advance to d4, a square that
    is not on the pin axis. *)
Theorem C4_pinned_pawn_leaves_axis :
  let s := set_analysis state_pinned_pawn (check_for_pins_and_checks state_pinned_pawn) in
  reachable state_pinned_pawn
  /\ sq (board s) 6 3 = Occ White Pawn
  /\ pins s = [(6, 3, -1, -1)]
  /\ exists m, m ∈ (get_pawn_moves 6 3 [] s).1
              /\ (end_row m, end_column m) = (4, 3)
              /\ ~ on_axis 6 3 (-1, -1) (end_row m) (end_column m).
Proof.
  split; [exact state_pinned_pawn_reachable|].
  split; [reflexivity|]. split; [reflexivity|].
  eexists. split; [apply (list_elem_of_lookup_2 _ 0%nat); vm_compute; reflexivity|].
  split; [reflexivity|].
  intros [k [H1 H2]]. cbn in H1, H2. lia.
Qed.

(** C5 (violated): after 1. d4 e6 2. Qd2 Bb4 the analyzer reports the
    white queen on d2 as pinned in the direction of b4.  [get_queen_moves]
    generates the move to d3, which is not on the pin axis, and its list
    is not the rook generation under the pin followed or preceded by the
    bishop generation under the pin. *)
Theorem C5_pinned_queen_leaves_axis :
  let s := set_analysis state_pinned_queen (check_for_pins_and_checks state_pinned_queen) in
  reachable state_pinned_queen
  /\ sq (board s) 6 3 = Occ White Queen
  /\ pins s = [(6, 3, -1, -1)]
  /\ (exists m, m ∈ (get_queen_moves 6 3 [] s).1
               /\ (end_row m, end_column m) = (5, 3)
               /\ ~ on_axis 6 3 (-1, -1) (end_row m) (end_column m))
  /\ length (get_queen_moves 6 3 [] s).1 = 4%nat
  /\ length ((get_bishop_moves 6 3 [] s).1 ++ (get_rook_moves 6 3 [] s).1) = 2%nat.
Proof.
  split; [exact state_pinned_queen_reachable|].
  split; [reflexivity|]. split; [reflexivity|].
  split; [|split; reflexivity].
  eexists. split; [apply (list_elem_of_lookup_2 _ 2%nat); vm_compute; reflexivity|].
  split; [reflexivity|].
  intros [k [H1 H2]]. cbn in H1, H2. lia.
Qed.

(** ** En passant on the king's rank *)

(** C7 (violated): in the reachable state after 1. e4 a5 2. e5 Ra6 3. Ke2
    Rb6 4. Kf3 Rb5 5. Kg4 b6 6. Kh5 d5 the white king (h5), the white pawn
    (e5) and the black pawn it can take en passant (d5) stand on one rank,
    the black rook on b5 is beyond them, and the squares between king and
    rook hold nothing but the two pawns.  The en-passant capture is in the
    list of [get_valid_moves], and after it the white king is attacked. *)
Theorem C7_en_passant_exposes_king :
  let s := state_en_passant in
  reachable s
  /\ white_to_move s = true
  /\ white_king_location s = (3, 7)
  /\ en_passant_possible s = Some (2, 3)
  /\ [sq (board s) 3 1; sq (board s) 3 2; sq (board s) 3 3; sq (board s) 3 4;
      sq (board s) 3 5; sq (board s) 3 6; sq (board s) 3 7]
     = [Occ Black Rook; Empty; Occ Black Pawn; Occ White Pawn; Empty; Empty;
        Occ White King]
  /\ exists m s',
       make_move (get_valid_moves s).2 m = Some s'
       /\ m ∈ (get_valid_moves s).1
       /\ is_en_passant_move m = true
       /\ (start_row m, start_column m, end_row m, end_column m) = (3, 4, 2, 3)
       /\ mover_king_attacked s s' = true.
Proof.
  split; [exact state_en_passant_reachable|].
  do 4 (split; [reflexivity|]).
  exists (Move_init (3, 4) (2, 3) (board state_en_passant) true false false).
  eexists. split; [vm_compute; reflexivity|].
  split; [by_lookup|].
  split; [reflexivity|]. split; [reflexivity|].
  vm_compute; reflexivity.
Qed.

(** ** Identity of moves *)

(** X1: two moves built for squares of the board are equal for [==]
    exactly when they have the same start and end squares, whatever the
    boards they were built from and their flags. *)
Theorem move_eqb_same_squares (st en st' en' : Z * Z) (b b' : Board)
    (ep pr ca ep' pr' ca' : bool) :
  on_board st.1 st.2 -> on_board en.1 en.2 ->
  on_board st'.1 st'.2 -> on_board en'.1 en'.2 ->
  move_eqb (Move_init st en b ep pr ca) (Move_init st' en' b' ep' pr' ca') = true
  <-> st = st' /\ en = en'.
Proof.
  destruct st as [sr sc], en as [er ec], st' as [sr' sc'], en' as [er' ec'].
  unfold on_board, move_eqb, Move_init. cbn. intros H1 H2 H3 H4.
  rewrite Z.eqb_eq. split.
  - intros H. split; f_equal; lia.
  - intros [E1 E2]. injection E1 as -> ->. injection E2 as -> ->. reflexivity.
Qed.

Lemma move_eqb_same_squares_witness :
  move_eqb (Move_init (6, 4) (4, 4) initial_board false false false)
           (Move_init (6, 4) (4, 4) [] true true false) = true
  <-> (6, 4) = (6, 4) /\ (4, 4) = (4, 4).
Proof.
  apply (move_eqb_same_squares (6, 4) (4, 4) (6, 4) (4, 4)); unfold on_board; simpl; lia.
Defined.

Lemma move_init_squares (st en : Z * Z) (b : Board) (ep pr ca : bool) :
  (start_row (Move_init st en b ep pr ca), start_column (Move_init st en b ep pr ca)) = st
  /\ (end_row (Move_init st en b ep pr ca), end_column (Move_init st en b ep pr ca)) = en.
Proof. destruct st, en. split; reflexivity. Qed.

Lemma move_init_eta (m : Move) (b : Board) :
  move_id m = start_row m * 1000 + start_column m * 100 + end_row m * 10 + end_column m ->
  move_eqb (Move_init (start_row m, start_column m) (end_row m, end_column m) b
              false false false) m = true.
Proof. intros H. unfold move_eqb, Move_init. cbn. rewrite H. apply Z.eqb_refl. Qed.

(** X2: when the two clicks and the squares of the legal moves are on the
    board, a match is the first legal move with the clicked start and end
    squares, and there is no match exactly when no legal move has them. *)
Theorem find_pending_move_spec (valid_moves : list Move) (b : Board)
    (click1 click2 : Z * Z) :
  on_board click1.1 click1.2 -> on_board click2.1 click2.2 ->
  Forall (fun m => move_on_board m
            /\ move_id m = start_row m * 1000 + start_column m * 100
                           + end_row m * 10 + end_column m) valid_moves ->
  match find_pending_move valid_moves b click1 click2 with
  | Some m =>
    exists i, valid_moves !! i = Some m
      /\ (start_row m, start_column m) = click1
      /\ (end_row m, end_column m) = click2
      /\ forall j m', (j < i)%nat -> valid_moves !! j = Some m' ->
           ~ ((start_row m', start_column m') = click1
              /\ (end_row m', end_column m') = click2)
  | None =>
    forall m, m ∈ valid_moves ->
      ~ ((start_row m, start_column m) = click1 /\ (end_row m, end_column m) = click2)
  end.
Proof.
  intros Hc1 Hc2 Hall. unfold find_pending_move.
  rewrite List.Forall_forall in Hall.
  assert (Hiff : forall m, m ∈ valid_moves ->
            (move_eqb (Move_init click1 click2 b false false false) m = true
             <-> (start_row m, start_column m) = click1
                 /\ (end_row m, end_column m) = click2)).
  { intros m Hm. apply list_elem_of_In in Hm.
    destruct (Hall m Hm) as [[Hs He] Hid].
    unfold move_eqb, Move_init. destruct click1 as [r1 c1], click2 as [r2 c2]. cbn.
    rewrite Hid, Z.eqb_eq. unfold on_board in *. simpl in *. split.
    - intros H. split; f_equal; lia.
    - intros [E1 E2]. injection E1 as <- <-. injection E2 as <- <-. reflexivity. }
  destruct (list_find _ valid_moves) as [[i m]|] eqn:Hf; simpl.
  - apply list_find_Some in Hf as (Hi & Hm & Hfirst).
    assert (Hin : m ∈ valid_moves) by (apply list_elem_of_lookup; eauto).
    apply Hiff in Hm; [|exact Hin]. destruct Hm as [E1 E2].
    exists i. split; [exact Hi|]. split; [exact E1|]. split; [exact E2|].
    intros j m' Hj Hm' Hsq. apply (Hfirst j m' Hm' Hj).
    apply Hiff; [apply list_elem_of_lookup; eauto | exact Hsq].
  - apply list_find_None in Hf. rewrite List.Forall_forall in Hf.
    intros m Hm Hsq. apply (Hf m); [apply list_elem_of_In; exact Hm|].
    apply Hiff; assumption.
Qed.

Lemma find_pending_move_spec_witness :
  match find_pending_move (get_valid_moves GameState_init).1 initial_board (6, 4) (4, 4) with
  | Some m =>
    exists i, (get_valid_moves GameState_init).1 !! i = Some m
      /\ (start_row m, start_column m) = (6, 4)
      /\ (end_row m, end_column m) = (4, 4)
      /\ forall j m', (j < i)%nat -> (get_valid_moves GameState_init).1 !! j = Some m' ->
           ~ ((start_row m', start_column m') = (6, 4)
              /\ (end_row m', end_column m') = (4, 4))
  | None =>
    forall m, m ∈ (get_valid_moves GameState_init).1 ->
      ~ ((start_row m, start_column m) = (6, 4) /\ (end_row m, end_column m) = (4, 4))
  end.
Proof.
  apply (find_pending_move_spec (get_valid_moves GameState_init).1 initial_board (6, 4) (4, 4)).
  - unfold on_board; simpl; lia.
  - unfold on_board; simpl; lia.
  - remember (get_valid_moves GameState_init).1 as l eqn:E. vm_compute in E. subst l.
    repeat (constructor; [split; [unfold move_on_board, on_board; cbn; lia | reflexivity]|]).
    constructor.
Defined.

(** ** What the generators append *)

Lemma extends_refl (Q : Move -> Prop) (moves : list Move) : extends Q moves moves.
Proof. intros m H. left. exact H. Qed.

Lemma extends_snoc (Q : Move -> Prop) (moves : list Move) (m : Move) :
  Q m -> extends Q moves (moves ++ [m]).
Proof.
  intros Hm x Hx. apply elem_of_app in Hx as [Hx|Hx]; [left; exact Hx|].
  apply list_elem_of_singleton in Hx as ->. right. exact Hm.
Qed.

Lemma extends_trans (Q : Move -> Prop) (l1 l2 l3 : list Move) :
  extends Q l1 l2 -> extends Q l2 l3 -> extends Q l1 l3.
Proof.
  intros H12 H23 m Hm. destruct (H23 m Hm) as [H|H]; [apply H12; exact H | right; exact H].
Qed.

Lemma fold_left_inv {A B : Type} (f : A -> B -> A) (I : A -> Prop) (l : list B) (a : A) :
  I a -> (forall a x, x ∈ l -> I a -> I (f a x)) -> I (fold_left f l a).
Proof.
  revert a. induction l as [|x l IH]; intros a Ha Hstep; simpl; [exact Ha|].
  apply IH.
  - apply Hstep; [left | exact Ha].
  - intros a' y Hy. apply Hstep. right. exact Hy.
Qed.

Lemma on_board_of_range (b : Board) (r c : Z) :
  board_wf b ->
  in_range (blen b) r && in_range (blen b) c = true -> on_board r c.
Proof.
  intros Hwf H. rewrite (blen_wf b Hwf) in H.
  apply andb_true_iff in H as [H1 H2].
  apply in_range_true in H1, H2. split; assumption.
Qed.

Section Generators.

Variable s0 : GameState.
Hypothesis Hwf : board_wf (board s0).

Let G := generated (board s0) (side_to_move s0) (en_passant_possible s0).

Lemma slide_extends (opponent : Colour) (row column : Z) (piece_pinned : bool)
    (pin_direction : option (Z * Z)) (d : Z * Z) (dists : list Z) (moves : list Move) :
  on_board row column ->
  has_kind (sq (board s0) row column) Pawn = false ->
  extends G moves
    (slide (board s0) opponent row column piece_pinned pin_direction d dists moves).
Proof.
  intros Hon Hk. revert moves.
  induction dists as [|i rest IH]; intros moves; simpl; [apply extends_refl|].
  destruct (in_range _ _ && in_range _ _) eqn:Hr; [|apply extends_refl].
  apply on_board_of_range in Hr; [|exact Hwf].
  destruct (negb piece_pinned || _ || _); [|apply IH].
  assert (HG : G (Move_init (row, column) (row + d.1 * i, column + d.2 * i)
                    (board s0) false false false)).
  { apply gen_plain; auto. }
  destruct (square_eqb _ Empty).
  - eapply extends_trans; [apply extends_snoc; exact HG | apply IH].
  - destruct (has_colour _ opponent); [apply extends_snoc; exact HG | apply extends_refl].
Qed.

Lemma slide_all_extends (opponent : Colour) (row column : Z) (piece_pinned : bool)
    (pin_direction : option (Z * Z)) (directions : list (Z * Z)) (moves : list Move) :
  on_board row column ->
  has_kind (sq (board s0) row column) Pawn = false ->
  extends G moves
    (slide_all (board s0) opponent row column piece_pinned pin_direction directions moves).
Proof.
  intros Hon Hk. unfold slide_all.
  apply (fold_left_inv _ (extends G moves)); [apply extends_refl|].
  intros l d _ Hl. eapply extends_trans; [exact Hl|].
  apply slide_extends; assumption.
Qed.

Lemma get_rook_moves_spec (s : GameState) (row column : Z) (moves : list Move) :
  s0 = s -> on_board row column ->
  has_kind (sq (board s0) row column) Pawn = false ->
  (exists ps, (get_rook_moves row column moves s).2 = set_pins s ps)
  /\ extends G moves (get_rook_moves row column moves s).1.
Proof.
  intros <- Hon Hk. unfold get_rook_moves.
  destruct (find_pin row column _ (pins s0)) as [[pinned pd] ps].
  cbn [fst snd board set_pins].
  split; [eexists; reflexivity|]. apply slide_all_extends; assumption.
Qed.

Lemma get_bishop_moves_spec (s : GameState) (row column : Z) (moves : list Move) :
  s0 = s -> on_board row column ->
  has_kind (sq (board s0) row column) Pawn = false ->
  (exists ps, (get_bishop_moves row column moves s).2 = set_pins s ps)
  /\ extends G moves (get_bishop_moves row column moves s).1.
Proof.
  intros <- Hon Hk. unfold get_bishop_moves.
  destruct (find_pin row column _ (pins s0)) as [[pinned pd] ps].
  cbn [fst snd board set_pins].
  split; [eexists; reflexivity|]. apply slide_all_extends; assumption.
Qed.

Lemma get_knight_moves_spec (s : GameState) (row column : Z) (moves : list Move) :
  s0 = s -> on_board row column ->
  has_kind (sq (board s0) row column) Pawn = false ->
  (exists ps, (get_knight_moves row column moves s).2 = set_pins s ps)
  /\ extends G moves (get_knight_moves row column moves s).1.
Proof.
  intros <- Hon Hk. unfold get_knight_moves.
  destruct (find_pin row column _ (pins s0)) as [[pinned pd] ps].
  cbn [fst snd board set_pins].
  split; [eexists; reflexivity|].
  apply (fold_left_inv _ (extends G moves)); [apply extends_refl|].
  intros l d _ Hl. eapply extends_trans; [exact Hl|].
  destruct (in_range _ _ && in_range _ _) eqn:Hr; [|apply extends_refl].
  apply on_board_of_range in Hr; [|exact Hwf].
  assert (HG : G (Move_init (row, column) (row + d.1, column + d.2)
                    (board s0) false false false)).
  { apply gen_plain; auto. }
  destruct (negb pinned); [|apply extends_refl].
  destruct (has_colour _ _); [apply extends_snoc; exact HG|].
  destruct (square_eqb _ _); [apply extends_snoc; exact HG | apply extends_refl].
Qed.

End Generators.

Lemma get_queen_moves_spec (s : GameState) (row column : Z) (moves : list Move) :
  board_wf (board s) -> on_board row column ->
  has_kind (sq (board s) row column) Pawn = false ->
  (exists ps, (get_queen_moves row column moves s).2 = set_pins s ps)
  /\ extends (generated (board s) (side_to_move s) (en_passant_possible s)) moves
       (get_queen_moves row column moves s).1.
Proof.
  intros Hwf Hon Hk. unfold get_queen_moves.
  destruct (get_bishop_moves_spec s Hwf s row column moves eq_refl Hon Hk) as [[ps1 E1] X1].
  destruct (get_bishop_moves row column moves s) as [moves1 s1]. simpl in E1, X1. subst s1.
  destruct (get_rook_moves_spec (set_pins s ps1) Hwf (set_pins s ps1) row column moves1
              eq_refl Hon Hk) as [[ps2 E2] X2].
  split.
  - exists ps2. rewrite E2. reflexivity.
  - eapply extends_trans; [exact X1 | exact X2].
Qed.

Lemma move_amount_abs (c : Colour) (row : Z) :
  Z.abs (row - (row + move_amount_of c)) <> 2.
Proof. destruct c; simpl; lia. Qed.

Lemma pawn_capture_extends (s : GameState) (row column side : Z) (piece_pinned : bool)
    (pin_direction : option (Z * Z)) (back_row : Z) (opponent : Colour)
    (king_row king_column : Z) (promotion_allowed : bool) (moves : list Move) :
  on_board row column -> side = -1 \/ side = 1 ->
  sq (board s) row column = Occ (side_to_move s) Pawn ->
  extends (generated (board s) (side_to_move s) (en_passant_possible s)) moves
    (pawn_capture s row column side piece_pinned pin_direction
       (move_amount_of (side_to_move s)) back_row opponent king_row king_column
       promotion_allowed moves).
Proof.
  intros Hon Hside Hp. unfold pawn_capture.
  set (G := generated _ _ _).
  destruct (_ && in_range 8 _) eqn:Hr; [|apply extends_refl].
  apply andb_true_iff in Hr as [Hc Hr]. apply in_range_true in Hr.
  assert (Hon' : on_board (row + move_amount_of (side_to_move s)) (column + side)).
  { destruct Hon as [? ?]. split; [exact Hr|].
    destruct Hside as [-> | ->]; simpl in Hc; [apply Z.leb_le in Hc | apply Z.ltb_lt in Hc]; lia. }
  destruct (negb piece_pinned || _); [|apply extends_refl].
  match goal with |- extends _ _ (if _ then ?a else ?b) => assert (Ha : extends G moves b) end.
  { destruct (has_colour _ opponent); [|apply extends_refl].
    destruct (_ && promotion_allowed).
    - apply extends_snoc. apply gen_promotion; assumption.
    - destruct (negb _); [|apply extends_refl].
      apply extends_snoc. apply gen_plain; auto. right. apply move_amount_abs. }
  case_bool_decide as Hep; [|exact Ha].
  destruct (if king_row =? row then _ else _) as [attacking blocking].
  destruct (negb attacking || blocking); [|exact Ha].
  eapply extends_trans; [exact Ha|]. apply extends_snoc.
  apply gen_en_passant; auto. destruct Hside; lia.
Qed.

Lemma get_pawn_moves_spec (s : GameState) (row column : Z) (moves : list Move) :
  board_wf (board s) -> on_board row column ->
  sq (board s) row column = Occ (side_to_move s) Pawn ->
  (exists ps, (get_pawn_moves row column moves s).2 = set_pins s ps)
  /\ extends (generated (board s) (side_to_move s) (en_passant_possible s)) moves
       (get_pawn_moves row column moves s).1.
Proof.
  intros Hwf Hon Hp. unfold get_pawn_moves.
  destruct (find_pin row column true (pins s)) as [[pinned pd] ps].
  set (G := generated _ _ _).
  assert (Hshape : exists start back opp kr kc rooks,
    (if white_to_move (set_pins s ps)
     then (-1, 6, 0, Black, white_king_location (set_pins s ps),
           count_piece (board s) (Occ White Rook))
     else (1, 1, 7, White, black_king_location (set_pins s ps),
           count_piece (board s) (Occ Black Rook)))
    = (move_amount_of (side_to_move s), start, back, opp, (kr, kc), rooks)
    /\ start = start_row_of (side_to_move s)).
  { unfold side_to_move. simpl. destruct (white_to_move s); simpl.
    - destruct (white_king_location s) as [kr kc]. repeat eexists.
    - destruct (black_king_location s) as [kr kc]. repeat eexists. }
  destruct Hshape as (start & back & opp & kr & kc & rooks & -> & Hstart).
  simpl. split; [eexists; reflexivity|].
  eapply extends_trans; [|apply (pawn_capture_extends (set_pins s ps)); auto].
  eapply extends_trans; [|apply (pawn_capture_extends (set_pins s ps)); auto].
  destruct (in_range 8 _) eqn:Hr; [|apply extends_refl].
  apply in_range_true in Hr.
  assert (Hon' : on_board (row + move_amount_of (side_to_move s)) column).
  { destruct Hon. split; assumption. }
  destruct (square_eqb (sq (board s) (row + move_amount_of (side_to_move s)) column) Empty)
    eqn:He1; [|apply extends_refl].
  apply bool_decide_eq_true in He1.
  match goal with
  | |- extends _ _ (if _ then ?l ++ _ else ?l) => assert (Ha : extends G moves l)
  end.
  { destruct (negb pinned || _); [|apply extends_refl].
    destruct (_ && (rooks <? 2)).
    - apply extends_snoc. apply gen_promotion; assumption.
    - destruct (negb _); [|apply extends_refl].
      apply extends_snoc. apply gen_plain; auto. right. apply move_amount_abs. }
  destruct ((row =? start) && _) eqn:H2; [|exact Ha].
  apply andb_true_iff in H2 as [Hrow He2].
  apply Z.eqb_eq in Hrow. apply bool_decide_eq_true in He2.
  eapply extends_trans; [exact Ha|]. apply extends_snoc.
  apply gen_two_step; auto. congruence.
Qed.

(** ** Checks and the in-check flag *)

Lemma pin_ray_check_flag (b : Board) (ally opponent : Colour) (start_row start_column j : Z)
    (d : Z * Z) (dists : list Z) (possible_pin : option Pin) (acc : Analysis) :
  (acc.1.1 = true <-> acc.2 <> []) ->
  let r := pin_ray b ally opponent start_row start_column j d dists possible_pin acc in
  r.1.1 = true <-> r.2 <> [].
Proof.
  intros Hacc. revert possible_pin.
  induction dists as [|i rest IH]; intros possible_pin; simpl; [exact Hacc|].
  destruct (in_range _ _ && in_range _ _); [|exact Hacc].
  destruct (has_colour _ ally && _).
  { destruct possible_pin; [exact Hacc | apply IH]. }
  destruct (has_colour _ opponent); [|apply IH].
  destruct (attack_pattern _ _ _ _); [|exact Hacc].
  destruct possible_pin; simpl; [exact Hacc|].
  split; [intros _ E; apply app_eq_nil in E as [_ E]; discriminate | reflexivity].
Qed.

Lemma knight_check_flag (b : Board) (opponent : Colour) (start_row start_column : Z)
    (acc : Analysis) (m : Z * Z) :
  (acc.1.1 = true <-> acc.2 <> []) ->
  let r := knight_check b opponent start_row start_column acc m in
  r.1.1 = true <-> r.2 <> [].
Proof.
  intros Hacc. unfold knight_check.
  destruct (in_range _ _ && in_range _ _); [|exact Hacc].
  destruct (has_colour _ _ && _); [|exact Hacc]. simpl.
  split; [intros _ E; apply app_eq_nil in E as [_ E]; discriminate | reflexivity].
Qed.

(** The in-check flag of the analyzer is set with the first check recorded. *)
Lemma check_flag_iff_checks (s : GameState) :
  (check_for_pins_and_checks s).1.1 = true <-> (check_for_pins_and_checks s).2 <> [].
Proof.
  unfold check_for_pins_and_checks.
  destruct (if white_to_move s then _ else _) as [[opponent ally] [start_row start_column]].
  apply (fold_left_inv _ (fun acc : Analysis => acc.1.1 = true <-> acc.2 <> [])).
  - apply (fold_left_inv _ (fun acc : Analysis => acc.1.1 = true <-> acc.2 <> [])).
    + simpl. split; [discriminate | intros H; exfalso; apply H; reflexivity].
    + intros acc jd _ Hacc. apply pin_ray_check_flag. exact Hacc.
  - intros acc m _ Hacc. apply knight_check_flag. exact Hacc.
Qed.

(** X3: [check_for_pins_and_checks] reports the side to move in check
    exactly when its list of checks is not empty. *)
Theorem in_check_iff_checks (s : GameState) :
  (check_for_pins_and_checks s).1.1 = true <-> (check_for_pins_and_checks s).2 <> [].
Proof. exact (check_flag_iff_checks s). Qed.

(** ** Pinned pieces *)

Lemma find_pin_found (row column : Z) (remove : bool) (ps : list Pin) (p : Pin) :
  last_pin_at row column ps = Some p ->
  find_pin row column remove ps
  = (true, Some (p.1.2, p.2), if remove then remove_first pin_eqb p ps else ps).
Proof. intros H. unfold find_pin. rewrite H. reflexivity. Qed.

(** X4: a knight for which the pin list holds a pin generates no move at
    all, and its pin is taken out of the list. *)
Theorem pinned_knight_has_no_moves (s : GameState) (row column : Z) (moves : list Move)
    (p : Pin) :
  last_pin_at row column (pins s) = Some p ->
  get_knight_moves row column moves s
  = (moves, set_pins s (remove_first pin_eqb p (pins s))).
Proof.
  intros Hp. unfold get_knight_moves.
  rewrite (find_pin_found _ _ _ _ _ Hp). cbn [fst snd board set_pins].
  f_equal.
  apply (fold_left_inv _ (fun l => l = moves)); [reflexivity|].
  intros l d _ ->. destruct (in_range _ _ && in_range _ _); reflexivity.
Qed.

Lemma pinned_knight_has_no_moves_witness :
  get_knight_moves 7 1 [] state_knight_pinned
  = ([], set_pins state_knight_pinned
           (remove_first pin_eqb (7, 1, 1, 1) (pins state_knight_pinned))).
Proof. apply (pinned_knight_has_no_moves state_knight_pinned 7 1 [] (7, 1, 1, 1)). reflexivity. Defined.





(** ** Castle rights *)

Lemma py_pop_take {A : Type} (l l' : list A) (x : A) :
  py_pop l = Some (l', x) -> l = l' ++ [x].
Proof.
  unfold py_pop. intros H.
  destruct (list.last l) as [y|] eqn:E; simpl in H; [|discriminate].
  injection H as <- <-.
  destruct l as [|a l] using rev_ind; [discriminate|].
  rewrite last_snoc in E. injection E as ->.
  rewrite length_app. simpl.
  replace (length l + 1 - 1)%nat with (length l) by lia.
  rewrite take_app_length. reflexivity.
Qed.

(** X6: castling stays disabled: after any sequence of [make_move] and
    [undo_move] calls from a new game the four castle flags are false and
    every snapshot in the castle-rights log is the all-false one. *)
Theorem castle_rights_stay_false (s : GameState) :
  reachable_any s ->
  (white_castle_king_side s, white_castle_queen_side s,
   black_castle_king_side s, black_castle_queen_side s) = (false, false, false, false)
  /\ Forall (fun cr => cr = no_castle_rights) (castle_rights_log s).
Proof.
  induction 1 as [|s m s' _ [IHf IHl] Hm|s s' _ [IHf IHl] Hu].
  - split; [reflexivity|]. repeat constructor.
  - unfold make_move in Hm.
    destruct (board_set (board s) _ _ _) as [b1|]; simpl in Hm; [|discriminate].
    destruct (board_set b1 _ _ _) as [b2|]; simpl in Hm; [|discriminate].
    destruct (if is_pawn_promotion m then _ else _) as [b3|]; simpl in Hm; [|discriminate].
    destruct (if is_en_passant_move m then _ else _) as [b4|]; simpl in Hm; [|discriminate].
    injection Hm as <-. simpl. split; [exact IHf|].
    apply Forall_app. split; [exact IHl|].
    injection IHf as -> -> -> ->. repeat constructor.
  - unfold undo_move in Hu. case_bool_decide as Hlen.
    { injection Hu as <-. split; assumption. }
    destruct (py_pop (move_log s)) as [[log m]|]; simpl in Hu; [|discriminate].
    destruct (board_set (board s) _ _ _) as [b1|]; simpl in Hu; [|discriminate].
    destruct (board_set b1 _ _ _) as [b2|]; simpl in Hu; [|discriminate].
    destruct (if is_en_passant_move m then _ else _) as [b4|]; simpl in Hu; [|discriminate].
    destruct (py_pop (en_passant_possible_log s)) as [[eplog e]|]; simpl in Hu; [|discriminate].
    destruct (list.last eplog) as [ep|]; simpl in Hu; [|discriminate].
    destruct (py_pop (castle_rights_log s)) as [[crlog cr]|] eqn:Hcr; simpl in Hu; [|discriminate].
    destruct (list.last crlog) as [rights|] eqn:Hlast; simpl in Hu; [|discriminate].
    injection Hu as <-. simpl.
    apply py_pop_take in Hcr. rewrite Hcr in IHl.
    apply Forall_app in IHl as [IHl _].
    assert (Hr : rights = no_castle_rights).
    { rewrite List.Forall_forall in IHl. apply IHl.
      apply list_elem_of_In. apply last_Some_elem_of. exact Hlast. }
    split; [rewrite Hr; reflexivity | exact IHl].
Qed.

Lemma castle_rights_stay_false_witness :
  (white_castle_king_side state_after_e4, white_castle_queen_side state_after_e4,
   black_castle_king_side state_after_e4, black_castle_queen_side state_after_e4)
  = (false, false, false, false)
  /\ Forall (fun cr => cr = no_castle_rights) (castle_rights_log state_after_e4).
Proof.
  apply (castle_rights_stay_false state_after_e4).
  apply (any_make GameState_init move_e4); [apply any_init | reflexivity].
Defined.

(** ** Sliding pieces never jump *)

Lemma initial_board_wf : board_wf initial_board.
Proof. split; [reflexivity | repeat constructor]. Qed.

Lemma seqZ_uncons (a : Z) (n : nat) :
  seqZ a (Z.of_nat (S n)) = a :: seqZ (a + 1) (Z.of_nat n).
Proof.
  rewrite seqZ_cons by lia. f_equal. f_equal; lia.
Qed.

Lemma slide_not_allowed (b : Board) (opponent : Colour) (row column : Z)
    (piece_pinned : bool) (pin_direction : option (Z * Z)) (d : Z * Z)
    (dists : list Z) (moves : list Move) :
  negb piece_pinned || bool_decide (pin_direction = Some d)
    || bool_decide (pin_direction = Some (- d.1, - d.2)) = false ->
  slide b opponent row column piece_pinned pin_direction d dists moves = moves.
Proof.
  intros Hno. induction dists as [|i rest IH]; simpl; [reflexivity|].
  rewrite Hno. destruct (in_range _ _ && in_range _ _); [exact IH | reflexivity].
Qed.

Lemma has_colour_other (p : Square) (c : Colour) :
  has_colour p (other_colour c) = true -> has_colour p c = false.
Proof. destruct p as [|[] k], c; simpl; congruence. Qed.

Lemma slide_clear (b : Board) (own : Colour) (row column : Z)
    (piece_pinned : bool) (pin_direction : option (Z * Z)) (d : Z * Z) (n : nat) :
  board_wf b ->
  forall (a : Z) (moves : list Move),
    1 <= a ->
    (forall k, 1 <= k < a -> sq b (row + d.1 * k) (column + d.2 * k) = Empty) ->
    extends (clear_slide b own row column [d]) moves
      (slide b (other_colour own) row column piece_pinned pin_direction d
         (seqZ a (Z.of_nat n)) moves).
Proof.
  intros Hwf.
  induction n as [|n IH]; intros a moves Ha Hclear; [apply extends_refl|].
  rewrite seqZ_uncons. simpl.
  destruct (in_range _ _ && in_range _ _) eqn:Hr; [|apply extends_refl].
  apply on_board_of_range in Hr; [|exact Hwf].
  destruct (negb piece_pinned || _ || _) eqn:Hallowed;
    [|rewrite slide_not_allowed by exact Hallowed; apply extends_refl].
  assert (Hm : has_colour (sq b (row + d.1 * a) (column + d.2 * a)) own = false ->
               clear_slide b own row column [d]
                 (Move_init (row, column) (row + d.1 * a, column + d.2 * a) b
                    false false false)).
  { intros Hc. exists d, a. split; [apply list_elem_of_singleton; reflexivity|].
    repeat split; try assumption; apply Hr. }
  destruct (square_eqb _ Empty) eqn:He.
  - apply bool_decide_eq_true in He.
    eapply extends_trans; [apply extends_snoc; apply Hm; rewrite He; reflexivity|].
    apply IH; [lia|].
    intros k Hk. destruct (decide (k = a)) as [->|Hne]; [exact He | apply Hclear; lia].
  - destruct (has_colour _ (other_colour own)) eqn:Hc; [|apply extends_refl].
    apply extends_snoc. apply Hm. apply has_colour_other. exact Hc.
Qed.

Lemma clear_slide_mono (b : Board) (own : Colour) (row column : Z)
    (l1 l2 : list (Z * Z)) (m : Move) :
  l1 ⊆ l2 -> clear_slide b own row column l1 m -> clear_slide b own row column l2 m.
Proof.
  intros Hsub (d & i & Hd & H). exists d, i. split; [apply Hsub; exact Hd | exact H].
Qed.

Lemma slide_all_clear (b : Board) (own : Colour) (row column : Z)
    (piece_pinned : bool) (pin_direction : option (Z * Z))
    (directions : list (Z * Z)) (moves : list Move) :
  board_wf b ->
  extends (clear_slide b own row column directions) moves
    (slide_all b (other_colour own) row column piece_pinned pin_direction directions moves).
Proof.
  intros Hwf. unfold slide_all.
  apply (fold_left_inv _ (extends _ moves)); [apply extends_refl|].
  intros l d Hd Hl. eapply extends_trans; [exact Hl|].
  unfold range_up. rewrite (blen_wf b Hwf).
  intros m Hm.
  destruct (slide_clear b own row column piece_pinned pin_direction d 7 Hwf 1 l
              ltac:(lia) ltac:(intros; lia) m Hm) as [H|H]; [left; exact H|].
  right. eapply clear_slide_mono; [|exact H].
  intros x Hx. apply list_elem_of_singleton in Hx as ->. exact Hd.
Qed.

Lemma opponent_is_other (s : GameState) :
  (if white_to_move s then Black else White) = other_colour (side_to_move s).
Proof. unfold side_to_move. destruct (white_to_move s); reflexivity. Qed.

(** X7: on an 8x8 board every move that [get_rook_moves] or
    [get_bishop_moves] appends goes from the piece's square along one of
    the piece's four directions over empty squares only, and ends on the
    board on a square that holds no piece of the side to move. *)
Theorem sliders_never_jump (s : GameState) (row column : Z) (moves : list Move) :
  board_wf (board s) ->
  extends (clear_slide (board s) (side_to_move s) row column rook_directions) moves
    (get_rook_moves row column moves s).1
  /\ extends (clear_slide (board s) (side_to_move s) row column bishop_directions) moves
       (get_bishop_moves row column moves s).1.
Proof.
  intros Hwf. unfold get_rook_moves, get_bishop_moves.
  destruct (find_pin row column _ (pins s)) as [[pinned1 pd1] ps1].
  destruct (find_pin row column true (pins s)) as [[pinned2 pd2] ps2].
  cbn [fst snd board set_pins]. rewrite opponent_is_other.
  split; apply slide_all_clear; exact Hwf.
Qed.

Lemma sliders_never_jump_witness :
  extends (clear_slide (board state_open) (side_to_move state_open) 7 5 rook_directions) []
    (get_rook_moves 7 5 [] state_open).1
  /\ extends (clear_slide (board state_open) (side_to_move state_open) 7 5 bishop_directions) []
       (get_bishop_moves 7 5 [] state_open).1.
Proof.
  apply (sliders_never_jump state_open 7 5 []).
  split; [reflexivity | repeat constructor].
Defined.

(** ** King moves *)

Lemma set_king_location_twice (s : GameState) (c : Colour) (k1 k2 : Z * Z) :
  set_king_location (set_king_location s c k1) c k2 = set_king_location s c k2.
Proof. destruct c; reflexivity. Qed.

Lemma board_set_king_location (s : GameState) (c : Colour) (k : Z * Z) :
  board (set_king_location s c k) = board s.
Proof. destruct c; reflexivity. Qed.

Lemma ally_is_side (s : GameState) :
  (if white_to_move s then White else Black) = side_to_move s.
Proof. reflexivity. Qed.

Lemma king_step_spec (s st : GameState) (row column : Z) (moves : list Move) (off : Z * Z) :
  board_wf (board s) -> off ∈ king_offsets ->
  st = s \/ st = set_king_location s (side_to_move s) (row, column) ->
  let r := king_step row column (side_to_move s) (moves, st) off in
  (r.2 = s \/ r.2 = set_king_location s (side_to_move s) (row, column))
  /\ extends (safe_king_step s row column) moves r.1.
Proof.
  intros Hwf Hoff Hst. unfold king_step.
  assert (Hb : board st = board s).
  { destruct Hst as [->| ->]; [reflexivity | apply board_set_king_location]. }
  assert (Hk : forall k, set_king_location st (side_to_move s) k
                         = set_king_location s (side_to_move s) k).
  { intros k. destruct Hst as [->| ->]; [reflexivity | apply set_king_location_twice]. }
  rewrite Hb.
  destruct (in_range _ _ && in_range _ _) eqn:Hr;
    [|split; [exact Hst | apply extends_refl]].
  apply on_board_of_range in Hr; [|exact Hwf].
  destruct (negb (has_colour _ _)) eqn:Hc; [|split; [exact Hst | apply extends_refl]].
  apply negb_true_iff in Hc.
  rewrite !Hk, set_king_location_twice, board_set_king_location.
  destruct (check_for_pins_and_checks _) as [[in_check ps] cs] eqn:Hcheck.
  cbn [fst snd]. split; [right; reflexivity|].
  destruct in_check; cbn [negb]; [apply extends_refl|].
  apply extends_snoc. exists off.
  split; [exact Hoff|]. split; [reflexivity|]. split; [exact Hr|]. split; [exact Hc|].
  rewrite Hcheck. reflexivity.
Qed.

Lemma get_king_moves_spec (s : GameState) (row column : Z) (moves : list Move) :
  board_wf (board s) ->
  ((get_king_moves row column moves s).2 = s
   \/ (get_king_moves row column moves s).2
      = set_king_location s (side_to_move s) (row, column))
  /\ extends (safe_king_step s row column) moves (get_king_moves row column moves s).1.
Proof.
  intros Hwf. unfold get_king_moves. rewrite ally_is_side.
  apply (fold_left_inv _
           (fun r : list Move * GameState =>
              (r.2 = s \/ r.2 = set_king_location s (side_to_move s) (row, column))
              /\ extends (safe_king_step s row column) moves r.1)).
  - split; [left; reflexivity | apply extends_refl].
  - intros [l st] off Hoff [Hst Hl]. cbn [fst snd] in Hst, Hl.
    apply elem_of_take in Hoff as (i & Hoff & _).
    assert (Hin : off ∈ king_offsets) by (apply list_elem_of_lookup; eauto).
    destruct (king_step_spec s st row column l off Hwf Hin Hst) as [H1 H2].
    split; [exact H1 | eapply extends_trans; eassumption].
Qed.

(** X8: on an 8x8 board every move that [get_king_moves] appends is a step
    from the given square to a neighbouring square of the board that holds
    no piece of the side to move and on which the analyzer reports no
    check when the king cache is set there; afterwards the state is the
    one before the call, up to the king cache of the side to move, which is
    then the given square. *)
Theorem king_moves_are_safe_steps (s : GameState) (row column : Z) (moves : list Move) :
  board_wf (board s) ->
  extends (safe_king_step s row column) moves (get_king_moves row column moves s).1
  /\ ((get_king_moves row column moves s).2 = s
      \/ (get_king_moves row column moves s).2
         = set_king_location s (side_to_move s) (row, column)).
Proof.
  intros Hwf. destruct (get_king_moves_spec s row column moves Hwf) as [H1 H2].
  split; assumption.
Qed.

Lemma king_moves_are_safe_steps_witness :
  extends (safe_king_step state_open 7 4) [] (get_king_moves 7 4 [] state_open).1
  /\ ((get_king_moves 7 4 [] state_open).2 = state_open
      \/ (get_king_moves 7 4 [] state_open).2
         = set_king_location state_open (side_to_move state_open) (7, 4)).
Proof.
  apply (king_moves_are_safe_steps state_open 7 4 []).
  split; [reflexivity | repeat constructor].
Defined.

(** ** What the generators leave alone *)

Lemma generator_frame_set_pins (s : GameState) (ps : list Pin) :
  generator_frame (set_pins s ps) = generator_frame s.
Proof. reflexivity. Qed.

Lemma generator_frame_set_king (s : GameState) (c : Colour) (k : Z * Z) :
  generator_frame (set_king_location s c k) = generator_frame s.
Proof. destruct c; reflexivity. Qed.

Lemma get_pawn_moves_state (row column : Z) (moves : list Move) (s : GameState) :
  exists ps, (get_pawn_moves row column moves s).2 = set_pins s ps.
Proof.
  unfold get_pawn_moves.
  destruct (find_pin row column true (pins s)) as [[pinned pd] ps].
  exists ps. cbn [white_to_move set_pins white_king_location black_king_location].
  destruct (white_to_move s).
  - destruct (white_king_location s). reflexivity.
  - destruct (black_king_location s). reflexivity.
Qed.

Lemma get_rook_moves_state (row column : Z) (moves : list Move) (s : GameState) :
  exists ps, (get_rook_moves row column moves s).2 = set_pins s ps.
Proof.
  unfold get_rook_moves.
  destruct (find_pin row column _ (pins s)) as [[pinned pd] ps]. exists ps. reflexivity.
Qed.

Lemma get_bishop_moves_state (row column : Z) (moves : list Move) (s : GameState) :
  exists ps, (get_bishop_moves row column moves s).2 = set_pins s ps.
Proof.
  unfold get_bishop_moves.
  destruct (find_pin row column _ (pins s)) as [[pinned pd] ps]. exists ps. reflexivity.
Qed.

Lemma get_knight_moves_state (row column : Z) (moves : list Move) (s : GameState) :
  exists ps, (get_knight_moves row column moves s).2 = set_pins s ps.
Proof.
  unfold get_knight_moves.
  destruct (find_pin row column _ (pins s)) as [[pinned pd] ps]. exists ps. reflexivity.
Qed.

Lemma get_queen_moves_state (row column : Z) (moves : list Move) (s : GameState) :
  exists ps, (get_queen_moves row column moves s).2 = set_pins s ps.
Proof.
  unfold get_queen_moves.
  destruct (get_bishop_moves_state row column moves s) as [ps1 E1].
  destruct (get_bishop_moves row column moves s) as [moves1 s1]. simpl in E1. subst s1.
  destruct (get_rook_moves_state row column moves1 (set_pins s ps1)) as [ps2 E2].
  exists ps2. rewrite E2. reflexivity.
Qed.

Lemma king_step_frame (row column : Z) (ally : Colour) (acc : list Move * GameState)
    (off : Z * Z) :
  generator_frame (king_step row column ally acc off).2 = generator_frame acc.2.
Proof.
  unfold king_step. destruct acc as [moves s].
  destruct (in_range _ _ && in_range _ _); [|reflexivity].
  destruct (negb (has_colour _ _)); [|reflexivity].
  destruct (check_for_pins_and_checks _) as [[ic ps] cs].
  cbn [fst snd]. rewrite !generator_frame_set_king. reflexivity.
Qed.

Lemma get_king_moves_frame (row column : Z) (moves : list Move) (s : GameState) :
  generator_frame (get_king_moves row column moves s).2 = generator_frame s.
Proof.
  unfold get_king_moves.
  apply (fold_left_inv _ (fun r : list Move * GameState =>
                            generator_frame r.2 = generator_frame s)); [reflexivity|].
  intros acc off _ Hacc. rewrite king_step_frame. exact Hacc.
Qed.

Lemma move_functions_frame (piece : Kind) (row column : Z) (moves : list Move)
    (s : GameState) :
  generator_frame (move_functions piece row column moves s).2 = generator_frame s.
Proof.
  destruct piece; simpl.
  - destruct (get_pawn_moves_state row column moves s) as [ps ->]. reflexivity.
  - destruct (get_rook_moves_state row column moves s) as [ps ->]. reflexivity.
  - destruct (get_knight_moves_state row column moves s) as [ps ->]. reflexivity.
  - destruct (get_bishop_moves_state row column moves s) as [ps ->]. reflexivity.
  - destruct (get_queen_moves_state row column moves s) as [ps ->]. reflexivity.
  - apply get_king_moves_frame.
Qed.

Lemma visit_square_frame (row : Z) (acc : list Move * GameState) (column : Z) :
  generator_frame (visit_square row acc column).2 = generator_frame acc.2.
Proof.
  unfold visit_square. destruct acc as [moves s].
  destruct (_ || _); [|reflexivity].
  destruct (sq (board s) row column); [reflexivity | apply move_functions_frame].
Qed.

Lemma visit_row_frame (acc : list Move * GameState) (row : Z) :
  generator_frame (visit_row acc row).2 = generator_frame acc.2.
Proof.
  unfold visit_row.
  apply (fold_left_inv _ (fun r : list Move * GameState =>
                            generator_frame r.2 = generator_frame acc.2)); [reflexivity|].
  intros a c _ Ha. rewrite visit_square_frame. exact Ha.
Qed.

Lemma get_all_possible_moves_frame (s : GameState) :
  generator_frame (get_all_possible_moves s).2 = generator_frame s.
Proof.
  unfold get_all_possible_moves.
  apply (fold_left_inv _ (fun r : list Move * GameState =>
                            generator_frame r.2 = generator_frame s)); [reflexivity|].
  intros a r _ Ha. rewrite visit_row_frame. exact Ha.
Qed.

Lemma generator_frame_fields (s t : GameState) :
  generator_frame s = generator_frame t ->
  board s = board t /\ white_to_move s = white_to_move t
  /\ in_check s = in_check t /\ checks s = checks t
  /\ checkmate s = checkmate t /\ stalemate s = stalemate t
  /\ persistent s = persistent t.
Proof.
  unfold generator_frame, persistent. intros H.
  injection H as -> -> -> -> -> -> -> -> -> -> -> -> -> ->. repeat split.
Qed.

(** ** The filter of [get_valid_moves] under a single check *)

Lemma remove_first_shift (m0 : Move) (l : list Move) (i : nat) :
  l !! i = Some m0 ->
  length (remove_first move_eqb m0 l) = pred (length l)
  /\ forall k, (i <= k)%nat -> remove_first move_eqb m0 l !! k = l !! S k.
Proof.
  revert i. induction l as [|y rest IH]; intros i Hi; [discriminate|].
  simpl. destruct (move_eqb y m0) eqn:E.
  - split; [reflexivity | intros k _; reflexivity].
  - destruct i as [|i]; simpl in Hi.
    { injection Hi as ->. unfold move_eqb in E. rewrite Z.eqb_refl in E. discriminate. }
    destruct (IH i Hi) as [Hlen Hshift]. split.
    + simpl. rewrite Hlen. destruct rest; [discriminate | reflexivity].
    + intros [|k] Hk; [lia|]. simpl. apply Hshift. lia.
Qed.

Lemma remove_first_subset (m0 m : Move) (l : list Move) :
  m ∈ remove_first move_eqb m0 l -> m ∈ l.
Proof.
  induction l as [|y rest IH]; simpl; [auto|].
  destruct (move_eqb y m0); intros H.
  - right. exact H.
  - apply elem_of_cons in H as [->|H]; [left | right; apply IH; exact H].
Qed.

Lemma drop_unhelpful_subset (valid_squares : list (Z * Z)) (n : nat) (l : list Move)
    (m : Move) :
  m ∈ drop_unhelpful valid_squares n l -> m ∈ l.
Proof.
  revert l. induction n as [|i IH]; intros l; simpl; [auto|].
  destruct (l !! i) as [m0|]; [|auto].
  destruct (_ && _); intros H; apply IH in H; [|exact H].
  eapply remove_first_subset. exact H.
Qed.

Lemma drop_unhelpful_keeps (valid_squares : list (Z * Z)) (n : nat) (l : list Move) :
  (n <= length l)%nat ->
  (forall k m, (n <= k)%nat -> l !! k = Some m ->
     has_kind (piece_moved m) King = true \/ (end_row m, end_column m) ∈ valid_squares) ->
  forall m, m ∈ drop_unhelpful valid_squares n l ->
    has_kind (piece_moved m) King = true \/ (end_row m, end_column m) ∈ valid_squares.
Proof.
  revert l. induction n as [|i IH]; intros l Hn Hgood m Hm; simpl in Hm.
  - apply list_elem_of_lookup in Hm as [k Hk]. apply (Hgood k m); [lia | exact Hk].
  - destruct (lookup_lt_is_Some_2 l i) as [m0 Hm0]; [lia|]. rewrite Hm0 in Hm.
    destruct (negb (has_kind (piece_moved m0) King)
              && negb (bool_decide ((end_row m0, end_column m0) ∈ valid_squares))) eqn:Hbad.
    + destruct (remove_first_shift m0 l i Hm0) as [Hlen Hshift].
      apply (IH (remove_first move_eqb m0 l)); [lia | | exact Hm].
      intros k m' Hk Hm'. rewrite Hshift in Hm' by exact Hk.
      apply (Hgood (S k) m'); [lia | exact Hm'].
    + apply (IH l); [lia | | exact Hm].
      intros k m' Hk Hm'. destruct (decide (k = i)) as [->|Hne].
      * rewrite Hm0 in Hm'. injection Hm' as <-.
        apply andb_false_iff in Hbad as [H|H]; apply negb_false_iff in H.
        -- left. exact H.
        -- right. apply bool_decide_eq_true in H. exact H.
      * apply (Hgood k m'); [lia | exact Hm'].
Qed.

Lemma squares_towards_on_ray (king_row king_column check_row check_column d0 d1 : Z)
    (n : nat) (a : Z) (r c : Z) :
  (r, c) ∈ squares_towards king_row king_column check_row check_column d0 d1
             (seqZ a (Z.of_nat n)) ->
  exists i, a <= i < a + Z.of_nat n
    /\ (r, c) = (king_row + d0 * i, king_column + d1 * i)
    /\ forall k, a <= k < i ->
         (king_row + d0 * k, king_column + d1 * k) <> (check_row, check_column).
Proof.
  revert a. induction n as [|n IH]; intros a H; [inversion H|].
  rewrite seqZ_uncons in H. simpl in H.
  apply elem_of_cons in H as [H|H].
  - exists a. split; [lia|]. split; [exact H | intros k Hk; lia].
  - destruct ((king_row + d0 * a =? check_row) && (king_column + d1 * a =? check_column))
      eqn:E; [inversion H|].
    destruct (IH (a + 1) H) as (i & Hi & Hrc & Hbefore).
    exists i. split; [lia|]. split; [exact Hrc|].
    intros k Hk. destruct (decide (k = a)) as [->|Hne]; [|apply Hbefore; lia].
    intros Heq. injection Heq as E1 E2.
    apply andb_false_iff in E as [E|E]; apply Z.eqb_neq in E; contradiction.
Qed.

(** ** The answers to a check *)

Lemma check_after_set_analysis (s : GameState) (a : Analysis) (c : Colour) (k : Z * Z) :
  check_for_pins_and_checks (set_king_location (set_analysis s a) c k)
  = check_for_pins_and_checks (set_king_location s c k).
Proof. destruct c; reflexivity. Qed.

Lemma safe_king_step_set_analysis (s : GameState) (a : Analysis) (row column : Z) (m : Move) :
  safe_king_step (set_analysis s a) row column m -> safe_king_step s row column m.
Proof.
  intros (off & H1 & H2 & H3 & H4 & H5). exists off.
  rewrite check_after_set_analysis in H5.
  split; [exact H1|]. split; [exact H2|]. split; [exact H3|]. split; [exact H4 | exact H5].
Qed.

(** X9: on an 8x8 board, when the analyzer reports two checks or more,
    every move that [get_valid_moves] returns is a safe step of the king
    from the cached king square of the side to move. *)
Theorem double_check_only_king_moves (s : GameState) :
  board_wf (board s) ->
  (2 <= length (check_for_pins_and_checks s).2)%nat ->
  forall m, m ∈ (get_valid_moves s).1 ->
    safe_king_step s (king_location s (side_to_move s)).1
      (king_location s (side_to_move s)).2 m.
Proof.
  intros Hwf Hlen m Hm.
  assert (Hic : (check_for_pins_and_checks s).1.1 = true).
  { apply check_flag_iff_checks. intros E. rewrite E in Hlen. simpl in Hlen. lia. }
  unfold get_valid_moves in Hm.
  destruct (check_for_pins_and_checks s) as [[ic ps] cs] eqn:Ha.
  simpl in Hic, Hlen. subst ic.
  cbn [in_check checks set_analysis white_to_move white_king_location
       black_king_location fst snd] in Hm.
  set (s1 := set_analysis s (true, ps, cs)) in *.
  assert (Hk : (if white_to_move s then white_king_location s else black_king_location s)
               = king_location s (side_to_move s)).
  { unfold side_to_move. destruct (white_to_move s); reflexivity. }
  rewrite Hk in Hm. destruct (king_location s (side_to_move s)) as [kr kc].
  destruct cs as [|c1 [|c2 cs]]; simpl in Hlen; try lia.
  destruct (get_king_moves_spec s1 kr kc [] Hwf) as [_ Hext].
  destruct (get_king_moves kr kc [] s1) as [vm s2]. cbn [fst snd] in Hm, Hext.
  destruct (Hext m Hm) as [H|H]; [inversion H|].
  apply (safe_king_step_set_analysis s (true, ps, c1 :: c2 :: cs)). exact H.
Qed.

Lemma double_check_only_king_moves_witness :
  safe_king_step state_double_check
    (king_location state_double_check (side_to_move state_double_check)).1
    (king_location state_double_check (side_to_move state_double_check)).2
    (Move_init (7, 4) (6, 3) (board state_double_check) false false false).
Proof.
  apply (double_check_only_king_moves state_double_check).
  - split; [reflexivity | repeat constructor].
  - vm_compute. lia.
  - by_lookup.
Defined.

(** X10: when the analyzer reports exactly one check, every move that
    [get_valid_moves] returns either moves a king, or ends on the square
    of the checking piece, or - the checking piece not being a knight -
    ends on the ray from the cached king square in the recorded direction
    of the check, not beyond the checking piece. *)
Theorem single_check_moves_answer_it (s : GameState) (check : Pin) :
  (check_for_pins_and_checks s).2 = [check] ->
  forall m, m ∈ (get_valid_moves s).1 ->
    has_kind (piece_moved m) King = true
    \/ (end_row m, end_column m) = (check.1.1.1, check.1.1.2)
    \/ (has_kind (sq (board s) check.1.1.1 check.1.1.2) Knight = false
        /\ exists i, 1 <= i
             /\ (end_row m, end_column m)
                = ((king_location s (side_to_move s)).1 + check.1.2 * i,
                   (king_location s (side_to_move s)).2 + check.2 * i)
             /\ forall k, 1 <= k < i ->
                  ((king_location s (side_to_move s)).1 + check.1.2 * k,
                   (king_location s (side_to_move s)).2 + check.2 * k)
                  <> (check.1.1.1, check.1.1.2)).
Proof.
  intros Hcs m Hm.
  assert (Hic : (check_for_pins_and_checks s).1.1 = true).
  { apply check_flag_iff_checks. rewrite Hcs. discriminate. }
  unfold get_valid_moves in Hm.
  destruct (check_for_pins_and_checks s) as [[ic ps] cs] eqn:Ha.
  simpl in Hic, Hcs. subst ic cs.
  cbn [in_check checks set_analysis white_to_move white_king_location
       black_king_location fst snd] in Hm.
  set (s1 := set_analysis s (true, ps, [check])) in *.
  assert (Hk : (if white_to_move s then white_king_location s else black_king_location s)
               = king_location s (side_to_move s)).
  { unfold side_to_move. destruct (white_to_move s); reflexivity. }
  rewrite Hk in Hm. destruct (king_location s (side_to_move s)) as [kr kc].
  pose proof (get_all_possible_moves_frame s1) as Hf.
  apply generator_frame_fields in Hf as (Hb & _).
  destruct (get_all_possible_moves s1) as [vm s2]. cbn [fst snd] in Hb.
  destruct check as [[[cr cc] d0] d1]. cbn [fst snd] in Hm |- *.
  rewrite Hb in Hm. change (board s1) with (board s) in Hm.
  apply drop_unhelpful_keeps in Hm;
    [|lia|intros k m' Hk' Hl; apply lookup_lt_Some in Hl; lia].
  destruct Hm as [H|H]; [left; exact H|]. right.
  destruct (has_kind (sq (board s) cr cc) Knight) eqn:Hkn.
  - left. apply list_elem_of_singleton in H. exact H.
  - right. split; [reflexivity|].
    unfold range_up, seqZ in H.
    rewrite <- (Nat2Z.id (Z.to_nat (blen (board s) - 1))) in H.
    change ((end_row m, end_column m)
            ∈ squares_towards kr kc cr cc d0 d1
                (seqZ 1 (Z.of_nat (Z.to_nat (blen (board s) - 1))))) in H.
    apply squares_towards_on_ray in H as (i & Hi & Hrc & Hbefore).
    exists i. split; [lia|]. split; [exact Hrc | exact Hbefore].
Qed.

Lemma single_check_moves_answer_it_witness :
  has_kind (piece_moved (Move_init (7, 4) (6, 3) (board state_single_check) false false false)) King = true
  \/ (end_row (Move_init (7, 4) (6, 3) (board state_single_check) false false false),
      end_column (Move_init (7, 4) (6, 3) (board state_single_check) false false false)) = (0, 4)
  \/ (has_kind (sq (board state_single_check) 0 4) Knight = false
      /\ exists i, 1 <= i
           /\ (end_row (Move_init (7, 4) (6, 3) (board state_single_check) false false false),
               end_column (Move_init (7, 4) (6, 3) (board state_single_check) false false false))
              = (7 + -1 * i, 4 + 0 * i)
           /\ forall k, 1 <= k < i -> (7 + -1 * k, 4 + 0 * k) <> (0, 4)).
Proof.
  apply (single_check_moves_answer_it state_single_check (0, 4, -1, 0)).
  - vm_compute. reflexivity.
  - by_lookup.
Defined.

(** ** What [get_valid_moves] writes *)

Lemma persistent_set_terminal (s t : GameState) (cm sm : bool) :
  generator_frame s = generator_frame t ->
  persistent (set_terminal s cm sm) = persistent t
  /\ in_check (set_terminal s cm sm) = in_check t
  /\ checks (set_terminal s cm sm) = checks t.
Proof.
  intros H. apply generator_frame_fields in H as (_ & _ & Hi & Hc & _ & _ & Hp).
  unfold persistent in *. simpl. auto.
Qed.

Lemma get_valid_moves_unfold (s : GameState) :
  exists s2,
    generator_frame s2 = generator_frame (set_analysis s (check_for_pins_and_checks s))
    /\ (get_valid_moves s).2
       = (if bool_decide (length (get_valid_moves s).1 = 0%nat) then
            if in_check s2 then set_terminal s2 true (stalemate s2)
            else set_terminal s2 (checkmate s2) true
          else set_terminal s2 false false).
Proof.
  unfold get_valid_moves.
  set (s1 := set_analysis s (check_for_pins_and_checks s)).
  destruct (if white_to_move s1 then _ else _) as [kr kc].
  destruct (in_check s1).
  - destruct (checks s1) as [|check [|c2 cs]].
    + pose proof (get_king_moves_frame kr kc [] s1) as Hf.
      destruct (get_king_moves kr kc [] s1) as [vm s2]. exists s2. split; [exact Hf|reflexivity].
    + pose proof (get_all_possible_moves_frame s1) as Hf.
      destruct (get_all_possible_moves s1) as [vm s2].
      destruct check as [[[cr cc] d0] d1].
      exists s2. split; [exact Hf|reflexivity].
    + pose proof (get_king_moves_frame kr kc [] s1) as Hf.
      destruct (get_king_moves kr kc [] s1) as [vm s2]. exists s2. split; [exact Hf|reflexivity].
  - pose proof (get_all_possible_moves_frame s1) as Hf.
    destruct (get_all_possible_moves s1) as [vm s2]. exists s2. split; [exact Hf|reflexivity].
Qed.

(** The fields [get_valid_moves] writes and the ones it leaves. *)
Lemma get_valid_moves_fields (s : GameState) :
  persistent (get_valid_moves s).2 = persistent s
  /\ in_check (get_valid_moves s).2 = (check_for_pins_and_checks s).1.1
  /\ checks (get_valid_moves s).2 = (check_for_pins_and_checks s).2
  /\ match (get_valid_moves s).1 with
     | [] =>
       if (check_for_pins_and_checks s).1.1
       then checkmate (get_valid_moves s).2 = true
            /\ stalemate (get_valid_moves s).2 = stalemate s
       else stalemate (get_valid_moves s).2 = true
            /\ checkmate (get_valid_moves s).2 = checkmate s
     | _ :: _ =>
       checkmate (get_valid_moves s).2 = false /\ stalemate (get_valid_moves s).2 = false
     end.
Proof.
  destruct (get_valid_moves_unfold s) as (s2 & Hf & ->).
  pose proof (generator_frame_fields _ _ Hf) as (_ & _ & Hic & Hcs & Hcm & Hsm & Hp).
  cbn [in_check checks checkmate stalemate set_analysis] in Hic, Hcs, Hcm, Hsm.
  change (persistent (set_analysis s (check_for_pins_and_checks s))) with (persistent s) in Hp.
  destruct (get_valid_moves s).1 as [|m vm]; cbn [length].
  - rewrite bool_decide_eq_true_2 by reflexivity. rewrite Hic.
    destruct (check_for_pins_and_checks s).1.1; cbn; unfold persistent in *; cbn; auto.
  - rewrite bool_decide_eq_false_2 by discriminate.
    cbn; unfold persistent in *; cbn; auto.
Qed.

(** X11: a call of [get_valid_moves] leaves the board, the side to move,
    the move log, the en-passant target and its log, the castle flags and
    their log as they were, and stores the analyzer's verdict in
    [in_check] and [checks].  With a non-empty list it clears [checkmate]
    and [stalemate]; with an empty list it sets [checkmate] if the side is
    in check and [stalemate] if not, and leaves the other flag as it
    was. *)
Theorem get_valid_moves_writes (s : GameState) :
  persistent (get_valid_moves s).2 = persistent s
  /\ in_check (get_valid_moves s).2 = (check_for_pins_and_checks s).1.1
  /\ checks (get_valid_moves s).2 = (check_for_pins_and_checks s).2
  /\ match (get_valid_moves s).1 with
     | [] =>
       if (check_for_pins_and_checks s).1.1
       then checkmate (get_valid_moves s).2 = true
            /\ stalemate (get_valid_moves s).2 = stalemate s
       else stalemate (get_valid_moves s).2 = true
            /\ checkmate (get_valid_moves s).2 = checkmate s
     | _ :: _ =>
       checkmate (get_valid_moves s).2 = false /\ stalemate (get_valid_moves s).2 = false
     end.
Proof. exact (get_valid_moves_fields s). Qed.

(** ** The king cache across [get_valid_moves] *)

Lemma set_king_location_same (s : GameState) (c : Colour) :
  set_king_location s c (king_location s c) = s.
Proof. destruct s, c; reflexivity. Qed.

Lemma row_length_wf (b : Board) (row : Z) :
  board_wf b -> 0 <= row < 8 -> length (default [] (py_get b row)) = 8%nat.
Proof.
  intros Hwf Hr.
  destruct (sq_lookup b row 0 Hwf) as (rw & Hrw & Hl & _); [split; lia|].
  unfold py_get. destruct Hwf as [Hlen _]. rewrite py_index_in by lia.
  simpl. rewrite Hrw. exact Hl.
Qed.

Lemma generator_frame_kings_sync (s st : GameState) :
  generator_frame st = generator_frame s ->
  (white_king_location st, black_king_location st)
  = (white_king_location s, black_king_location s) ->
  st = set_pins s (pins st).
Proof.
  unfold generator_frame. destruct s, st. simpl. intros H K.
  injection H as -> -> -> -> -> -> -> -> -> -> -> -> -> ->.
  injection K as -> ->. reflexivity.
Qed.

Lemma visit_square_kings (s : GameState) (row column : Z) (acc : list Move * GameState) :
  board_wf (board s) -> king_sync s (side_to_move s) -> on_board row column ->
  (exists ps, acc.2 = set_pins s ps) ->
  exists ps, (visit_square row acc column).2 = set_pins s ps.
Proof.
  intros Hwf Hsync Hon [ps0 Hacc]. destruct acc as [moves st]. simpl in Hacc. subst st.
  unfold visit_square. cbn [board white_to_move set_pins].
  destruct (_ || _) eqn:Hturn; [|exists ps0; reflexivity].
  destruct (sq (board s) row column) as [|c piece] eqn:Hsq; [exists ps0; reflexivity|].
  destruct piece; simpl.
  - destruct (get_pawn_moves_state row column moves (set_pins s ps0)) as [ps ->]. eauto.
  - destruct (get_rook_moves_state row column moves (set_pins s ps0)) as [ps ->]. eauto.
  - destruct (get_knight_moves_state row column moves (set_pins s ps0)) as [ps ->]. eauto.
  - destruct (get_bishop_moves_state row column moves (set_pins s ps0)) as [ps ->]. eauto.
  - destruct (get_queen_moves_state row column moves (set_pins s ps0)) as [ps ->]. eauto.
  - assert (Hc : c = side_to_move s).
    { unfold side_to_move. destruct c, (white_to_move s); simpl in Hturn;
        try reflexivity; discriminate. }
    subst c. specialize (Hsync row column Hon Hsq).
    destruct (get_king_moves_spec (set_pins s ps0) row column moves Hwf) as [[E|E] _];
      rewrite E; [eauto|].
    exists ps0. change (side_to_move (set_pins s ps0)) with (side_to_move s).
    rewrite <- Hsync.
    change (king_location s (side_to_move s))
      with (king_location (set_pins s ps0) (side_to_move s)).
    apply set_king_location_same.
Qed.

Lemma get_all_possible_moves_kings (s : GameState) :
  board_wf (board s) -> king_sync s (side_to_move s) ->
  exists ps, (get_all_possible_moves s).2 = set_pins s ps.
Proof.
  intros Hwf Hsync. unfold get_all_possible_moves.
  apply (fold_left_inv _ (fun r : list Move * GameState => exists ps, r.2 = set_pins s ps)).
  { exists (pins s). destruct s; reflexivity. }
  intros acc row Hrow Hacc. unfold visit_row.
  unfold range_up in Hrow. apply elem_of_seqZ in Hrow.
  rewrite (blen_wf _ Hwf) in Hrow.
  destruct Hacc as [ps0 Hacc]. rewrite Hacc. cbn [board set_pins].
  rewrite (row_length_wf _ _ Hwf) by lia.
  apply (fold_left_inv _ (fun r : list Move * GameState => exists ps, r.2 = set_pins s ps)).
  { rewrite Hacc. eauto. }
  intros a column Hcol Ha. unfold range_up in Hcol. apply elem_of_seqZ in Hcol.
  apply visit_square_kings; try assumption. split; lia.
Qed.

(** With the king cache in sync the probing of king squares restores it. *)
Lemma get_valid_moves_kings (s : GameState) :
  board_wf (board s) -> king_sync s (side_to_move s) ->
  white_king_location (get_valid_moves s).2 = white_king_location s
  /\ black_king_location (get_valid_moves s).2 = black_king_location s.
Proof.
  intros Hwf Hsync.
  assert (H : exists ps cm sm,
             (get_valid_moves s).2
             = set_terminal (set_pins (set_analysis s (check_for_pins_and_checks s)) ps) cm sm).
  { unfold get_valid_moves.
    set (s1 := set_analysis s (check_for_pins_and_checks s)).
    assert (Hk : (if white_to_move s1 then white_king_location s1 else black_king_location s1)
                 = king_location s1 (side_to_move s1)).
    { unfold side_to_move. destruct (white_to_move s1); reflexivity. }
    rewrite Hk.
    assert (Hking : exists ps, (get_king_moves (king_location s1 (side_to_move s1)).1
                                  (king_location s1 (side_to_move s1)).2 [] s1).2
                               = set_pins s1 ps).
    { destruct (get_king_moves_spec s1 (king_location s1 (side_to_move s1)).1
                  (king_location s1 (side_to_move s1)).2 [] Hwf) as [[E|E] _]; rewrite E.
      - exists (pins s1). destruct s; reflexivity.
      - exists (pins s1). rewrite <- surjective_pairing, set_king_location_same.
        destruct s; reflexivity. }
    assert (Hall : exists ps, (get_all_possible_moves s1).2 = set_pins s1 ps).
    { apply get_all_possible_moves_kings; assumption. }
    destruct (king_location s1 (side_to_move s1)) as [kr kc]. cbn [fst snd] in Hking.
    destruct (in_check s1).
    - destruct (checks s1) as [|check [|c2 cs]].
      + destruct Hking as [ps E]. destruct (get_king_moves kr kc [] s1) as [vm s2].
        simpl in E. subst s2. cbn [fst snd].
        destruct (bool_decide _); [destruct (in_check _)|]; eauto.
      + destruct Hall as [ps E]. destruct (get_all_possible_moves s1) as [vm s2].
        simpl in E. subst s2. destruct check as [[[cr cc] d0] d1]. cbn [fst snd].
        destruct (bool_decide _); [destruct (in_check _)|]; eauto.
      + destruct Hking as [ps E]. destruct (get_king_moves kr kc [] s1) as [vm s2].
        simpl in E. subst s2. cbn [fst snd].
        destruct (bool_decide _); [destruct (in_check _)|]; eauto.
    - destruct Hall as [ps E]. destruct (get_all_possible_moves s1) as [vm s2].
      simpl in E. subst s2. cbn [fst snd].
      destruct (bool_decide _); [destruct (in_check _)|]; eauto. }
  destruct H as (ps & cm & sm & ->). split; reflexivity.
Qed.

(** X12: on an 8x8 board on which every square holding a king of the side
    to move is the cached location of that king, a call of
    [get_valid_moves] leaves both cached king locations as they were. *)
Theorem get_valid_moves_keeps_king_cache (s : GameState) :
  board_wf (board s) -> king_sync s (side_to_move s) ->
  white_king_location (get_valid_moves s).2 = white_king_location s
  /\ black_king_location (get_valid_moves s).2 = black_king_location s.
Proof. exact (get_valid_moves_kings s). Qed.

Lemma get_valid_moves_keeps_king_cache_witness :
  white_king_location (get_valid_moves state_open).2 = white_king_location state_open
  /\ black_king_location (get_valid_moves state_open).2 = black_king_location state_open.
Proof.
  apply (get_valid_moves_keeps_king_cache state_open).
  - split; [reflexivity | repeat constructor].
  - intros r c [Hr Hc] H.
    assert (Hrc : (r = 0 \/ r = 1 \/ r = 2 \/ r = 3 \/ r = 4 \/ r = 5 \/ r = 6 \/ r = 7)
                  /\ (c = 0 \/ c = 1 \/ c = 2 \/ c = 3 \/ c = 4 \/ c = 5 \/ c = 6 \/ c = 7))
      by lia.
    destruct Hrc as [Hr' Hc'].
    repeat (destruct Hr' as [->|Hr']); try subst r;
      repeat (destruct Hc' as [->|Hc']); try subst c;
      first [reflexivity | discriminate H].
Defined.

(** ** Making a move and taking it back *)

Lemma make_then_undo_board (b : Board) (sr sc er ec : Z) (pm cap : Square) (ep pr : bool) :
  board_wf b -> on_board sr sc -> on_board er ec ->
  pm = sq b sr sc ->
  (ep = false -> cap = sq b er ec) ->
  (ep = true -> sq b er ec = Empty /\ sq b sr ec = cap) ->
  exists b1 b2 b3 b4 b5 b6,
    board_set b sr sc Empty = Some b1
    /\ board_set b1 er ec pm = Some b2
    /\ (if pr then board_set b2 er ec (promoted pm) else Some b2) = Some b3
    /\ (if ep then board_set b3 sr ec Empty else Some b3) = Some b4
    /\ board_set b4 sr sc pm = Some b5
    /\ board_set b5 er ec cap = Some b6
    /\ (if ep then b7 ← board_set b6 er ec Empty; board_set b7 sr ec cap
        else Some b6) = Some b.
Proof.
  intros Hwf Hs He Hpm Hcap Hep.
  assert (Hse : on_board sr ec) by (destruct Hs, He; split; assumption).
  destruct (board_set_spec b sr sc Empty Hwf Hs) as (b1 & E1 & W1 & A1 & O1).
  destruct (board_set_spec b1 er ec pm W1 He) as (b2 & E2 & W2 & A2 & O2).
  assert (H3 : exists b3, (if pr then board_set b2 er ec (promoted pm) else Some b2) = Some b3
                /\ board_wf b3
                /\ forall r c, on_board r c -> (r, c) <> (er, ec) -> sq b3 r c = sq b2 r c).
  { destruct pr.
    - destruct (board_set_spec b2 er ec (promoted pm) W2 He) as (b3 & E3 & W3 & _ & O3).
      exists b3. auto.
    - exists b2. auto. }
  destruct H3 as (b3 & E3 & W3 & O3).
  assert (H4 : exists b4, (if ep then board_set b3 sr ec Empty else Some b3) = Some b4
                /\ board_wf b4
                /\ (forall r c, on_board r c -> (r, c) <> (sr, ec) -> sq b4 r c = sq b3 r c)
                /\ (ep = false -> b4 = b3)).
  { destruct ep.
    - destruct (board_set_spec b3 sr ec Empty W3 Hse) as (b4 & E4 & W4 & _ & O4).
      exists b4. split; [exact E4|]. split; [exact W4|]. split; [exact O4 | discriminate].
    - exists b3. auto. }
  destruct H4 as (b4 & E4 & W4 & O4 & Hb4).
  assert (Hframe : forall r c, on_board r c ->
            (r, c) <> (sr, sc) -> (r, c) <> (er, ec) -> (r, c) <> (sr, ec) ->
            sq b4 r c = sq b r c).
  { intros r c Hon N1 N2 N3.
    rewrite O4, O3, O2, O1 by assumption. reflexivity. }
  destruct (board_set_spec b4 sr sc pm W4 Hs) as (b5 & E5 & W5 & A5 & O5).
  destruct (board_set_spec b5 er ec cap W5 He) as (b6 & E6 & W6 & A6 & O6).
  exists b1, b2, b3, b4, b5, b6.
  do 6 (split; [assumption|]).
  destruct ep.
  - destruct (Hep eq_refl) as [Hempty Hcapd].
    destruct (board_set_spec b6 er ec Empty W6 He) as (b7 & E7 & W7 & A7 & O7).
    destruct (board_set_spec b7 sr ec cap W7 Hse) as (b8 & E8 & W8 & A8 & O8).
    rewrite E7. simpl. rewrite E8. f_equal.
    apply board_ext; [exact W8 | exact Hwf |].
    intros r c Hon.
    destruct (decide ((r, c) = (sr, ec))) as [E|N3].
    { injection E as -> ->. rewrite A8. symmetry. exact Hcapd. }
    rewrite O8 by assumption.
    destruct (decide ((r, c) = (er, ec))) as [E|N2].
    { injection E as -> ->. rewrite A7. symmetry. exact Hempty. }
    rewrite O7, O6 by assumption.
    destruct (decide ((r, c) = (sr, sc))) as [E|N1].
    { injection E as -> ->. rewrite A5. exact Hpm. }
    rewrite O5 by assumption. apply Hframe; assumption.
  - f_equal. apply board_ext; [exact W6 | exact Hwf |].
    intros r c Hon.
    destruct (decide ((r, c) = (er, ec))) as [E|N2].
    { injection E as -> ->. rewrite A6. apply Hcap. reflexivity. }
    rewrite O6 by assumption.
    destruct (decide ((r, c) = (sr, sc))) as [E|N1].
    { injection E as -> ->. rewrite A5. exact Hpm. }
    rewrite O5 by assumption. rewrite (Hb4 eq_refl).
    rewrite O3, O2, O1 by assumption. reflexivity.
Qed.

(** [make_move] then [undo_move] for a move built on the current board. *)
Lemma make_undo_round_trip (s : GameState) (sr sc er ec : Z) (ep pr ca : bool) :
  let m := Move_init (sr, sc) (er, ec) (board s) ep pr ca in
  board_wf (board s) -> on_board sr sc -> on_board er ec -> logs_ok s ->
  (ep = true -> sq (board s) er ec = Empty /\ sq (board s) sr ec = piece_captured m) ->
  (piece_moved m = Occ White King -> white_king_location s = (sr, sc)) ->
  (piece_moved m = Occ Black King -> black_king_location s = (sr, sc)) ->
  exists s1, make_move s m = Some s1
             /\ undo_move s1 = Some (set_terminal s false false).
Proof.
  intros m Hwf Hs He [Hlog1 Hlog2] Hep Hwk Hbk.
  destruct (make_then_undo_board (board s) sr sc er ec (piece_moved m) (piece_captured m)
              ep pr Hwf Hs He) as (b1 & b2 & b3 & b4 & b5 & b6 & E1 & E2 & E3 & E4 & E5 & E6 & E7).
  { reflexivity. }
  { intros ->. reflexivity. }
  { exact Hep. }
  assert (Hsr : start_row m = sr) by reflexivity.
  assert (Hsc : start_column m = sc) by reflexivity.
  assert (Her : end_row m = er) by reflexivity.
  assert (Hec : end_column m = ec) by reflexivity.
  assert (Hpr : is_pawn_promotion m = pr) by reflexivity.
  assert (Hepf : is_en_passant_move m = ep) by reflexivity.
  clearbody m.
  unfold make_move. rewrite Hsr, Hsc, Her, Hec, Hpr, Hepf.
  rewrite E1. simpl. rewrite E2. simpl. rewrite E3. simpl. rewrite E4. simpl.
  eexists. split; [reflexivity|].
  unfold undo_move. cbn [move_log].
  rewrite bool_decide_eq_false_2 by (rewrite length_app; simpl; lia).
  rewrite py_pop_snoc. simpl. rewrite Hsr, Hsc, Her, Hec, Hepf.
  rewrite E5. simpl. rewrite E6. simpl. rewrite E7. simpl.
  rewrite ?py_pop_snoc. simpl. rewrite Hlog1. simpl. rewrite Hlog2. simpl.
  f_equal. unfold set_terminal. f_equal.
  - apply negb_involutive.
  - destruct (square_eqb (piece_moved m) (Occ White King)) eqn:E; [|reflexivity].
    apply bool_decide_eq_true in E. symmetry. apply Hwk. exact E.
  - destruct (square_eqb (piece_moved m) (Occ White King)) eqn:E; [reflexivity|].
    destruct (square_eqb (piece_moved m) (Occ Black King)) eqn:E'; [|reflexivity].
    apply bool_decide_eq_true in E'. symmetry. apply Hbk. exact E'.
Qed.

(** X13: on an 8x8 board whose logs end with the current en-passant target
    and castle rights, take a move built by [Move(start, end, board)] for
    two squares of the board.  If the cached king location is the start
    square whenever the move moves a king and, for a move flagged en
    passant, the end square is empty and the square beside the start in
    the end column holds the recorded captured pawn, then [make_move]
    followed by [undo_move] succeeds and gives back the state before the
    move, with [checkmate] and [stalemate] cleared. *)
Theorem make_then_undo_restores (s : GameState) (sr sc er ec : Z) (ep pr ca : bool) :
  let m := Move_init (sr, sc) (er, ec) (board s) ep pr ca in
  board_wf (board s) -> on_board sr sc -> on_board er ec -> logs_ok s ->
  (ep = true -> sq (board s) er ec = Empty /\ sq (board s) sr ec = piece_captured m) ->
  (piece_moved m = Occ White King -> white_king_location s = (sr, sc)) ->
  (piece_moved m = Occ Black King -> black_king_location s = (sr, sc)) ->
  exists s1, make_move s m = Some s1
             /\ undo_move s1 = Some (set_terminal s false false).
Proof. exact (make_undo_round_trip s sr sc er ec ep pr ca). Qed.

Lemma make_then_undo_restores_witness :
  exists s1, make_move state_open
               (Move_init (7, 6) (5, 5) (board state_open) false false false) = Some s1
             /\ undo_move s1 = Some (set_terminal state_open false false).
Proof.
  apply (make_then_undo_restores state_open 7 6 5 5 false false false).
  - split; [reflexivity | repeat constructor].
  - unfold on_board; lia.
  - unfold on_board; lia.
  - split; reflexivity.
  - discriminate.
  - discriminate.
  - discriminate.
Defined.

(** ** Notation *)

Lemma columns_to_files_off (col : Z) : ~ 0 <= col < 8 -> columns_to_files !! col = None.
Proof.
  intros H. unfold columns_to_files, py_dict. simpl.
  rewrite !lookup_insert_ne by lia. apply lookup_empty.
Qed.

Lemma rows_to_ranks_off (row : Z) : ~ 0 <= row < 8 -> rows_to_ranks !! row = None.
Proof.
  intros H. unfold rows_to_ranks, py_dict. simpl.
  rewrite !lookup_insert_ne by lia. apply lookup_empty.
Qed.

Lemma get_rank_file_on_board (row col : Z) :
  on_board row col ->
  exists f r : Ascii.ascii,
    get_rank_file row col = Some (String f (String r EmptyString))
    /\ files_to_columns !! String f EmptyString = Some col
    /\ ranks_to_rows !! String r EmptyString = Some row.
Proof.
  intros [Hr Hc].
  assert (Hr' : row = 0 \/ row = 1 \/ row = 2 \/ row = 3 \/ row = 4 \/ row = 5
                \/ row = 6 \/ row = 7) by lia.
  assert (Hc' : col = 0 \/ col = 1 \/ col = 2 \/ col = 3 \/ col = 4 \/ col = 5
                \/ col = 6 \/ col = 7) by lia.
  clear Hr Hc.
  repeat (destruct Hr' as [->|Hr']); try subst row;
    repeat (destruct Hc' as [->|Hc']); try subst col;
    eexists _, _; (split; [vm_compute; reflexivity|]); split; vm_compute; reflexivity.
Qed.

(** [get_rank_file] on and off the board. *)
Lemma get_rank_file_spec (row col : Z) :
  (on_board row col ->
   exists file rank : string,
     get_rank_file row col = Some (file +:+ rank)
     /\ files_to_columns !! file = Some col
     /\ ranks_to_rows !! rank = Some row)
  /\ (~ on_board row col -> get_rank_file row col = None).
Proof.
  split.
  - intros Hon. destruct (get_rank_file_on_board row col Hon) as (f & r & E & Hf & Hr).
    exists (String f EmptyString), (String r EmptyString). rewrite E. auto.
  - intros Hoff. unfold get_rank_file.
    destruct (decide (0 <= col < 8)) as [Hc|Hc].
    + assert (Hr : ~ 0 <= row < 8) by (intros Hr; apply Hoff; split; assumption).
      rewrite (rows_to_ranks_off row Hr).
      destruct (columns_to_files !! col); reflexivity.
    + rewrite (columns_to_files_off col Hc). reflexivity.
Qed.

(** X14: for a square of the board [get_rank_file] returns a file letter
    followed by a rank digit that [files_to_columns] and [ranks_to_rows]
    map back to the column and the row; for any other pair of integers it
    raises [KeyError]. *)
Theorem get_rank_file_round_trip (row col : Z) :
  (on_board row col ->
   exists file rank : string,
     get_rank_file row col = Some (file +:+ rank)
     /\ files_to_columns !! file = Some col
     /\ ranks_to_rows !! rank = Some row)
  /\ (~ on_board row col -> get_rank_file row col = None).
Proof. exact (get_rank_file_spec row col). Qed.

Lemma get_rank_file_round_trip_witness :
  exists file rank : string,
    get_rank_file 4 4 = Some (file +:+ rank)
    /\ files_to_columns !! file = Some 4
    /\ ranks_to_rows !! rank = Some 4.
Proof.
  apply (proj1 (get_rank_file_round_trip 4 4)). unfold on_board. lia.
Defined.

(** X15: two moves with squares on the board have the same chess notation
    exactly when they have the same start and end squares. *)
Theorem get_chess_notation_injective (m1 m2 : Move) :
  move_on_board m1 -> move_on_board m2 ->
  get_chess_notation m1 = get_chess_notation m2
  <-> (start_row m1, start_column m1, end_row m1, end_column m1)
      = (start_row m2, start_column m2, end_row m2, end_column m2).
Proof.
  intros [Hs1 He1] [Hs2 He2]. split.
  - unfold get_chess_notation.
    destruct (get_rank_file_on_board _ _ Hs1) as (f1 & r1 & -> & Hf1 & Hr1).
    destruct (get_rank_file_on_board _ _ He1) as (f1' & r1' & -> & Hf1' & Hr1').
    destruct (get_rank_file_on_board _ _ Hs2) as (f2 & r2 & -> & Hf2 & Hr2).
    destruct (get_rank_file_on_board _ _ He2) as (f2' & r2' & -> & Hf2' & Hr2').
    simpl. intros H. injection H as -> -> -> ->.
    rewrite Hf1 in Hf2. rewrite Hr1 in Hr2. rewrite Hf1' in Hf2'. rewrite Hr1' in Hr2'.
    congruence.
  - intros H. injection H as E1 E2 E3 E4. unfold get_chess_notation.
    rewrite E1, E2, E3, E4. reflexivity.
Qed.

Lemma get_chess_notation_injective_witness :
  get_chess_notation move_e4
  = get_chess_notation (Move_init (6, 4) (4, 4) [] true true false)
  <-> (start_row move_e4, start_column move_e4, end_row move_e4, end_column move_e4)
      = (6, 4, 4, 4).
Proof.
  apply (get_chess_notation_injective move_e4 (Move_init (6, 4) (4, 4) [] true true false));
    split; unfold on_board; simpl; lia.
Defined.

(** X16: [str(move)] is defined for every move whose start column and end
    square are on the board, and raises [KeyError] for a move that is not
    flagged as castling and whose end square is not on the board. *)
Theorem Move_str_defined (m : Move) :
  (0 <= start_column m < 8 -> on_board (end_row m) (end_column m) ->
   exists str, Move_str m = Some str)
  /\ (is_castle_move m = false -> ~ on_board (end_row m) (end_column m) ->
      Move_str m = None).
Proof.
  split.
  - intros Hsc He. unfold Move_str.
    destruct (is_castle_move m); [eauto|].
    destruct (get_rank_file_on_board _ _ He) as (f & r & -> & _ & _). simpl.
    destruct (has_kind _ Pawn); [|eauto].
    destruct (is_capture m && is_pawn_promotion m); [eauto|].
    destruct (is_capture m); [|eauto].
    destruct (get_rank_file_on_board 0 (start_column m)) as (f0 & r0 & E & _ & _).
    { split; [lia | exact Hsc]. }
    unfold get_rank_file in E.
    destruct (columns_to_files !! start_column m) as [file|]; [|discriminate].
    simpl. eauto.
  - intros Hc He. unfold Move_str. rewrite Hc.
    rewrite (proj2 (get_rank_file_spec _ _) He). reflexivity.
Qed.

Lemma Move_str_defined_witness : exists str, Move_str move_e4 = Some str.
Proof.
  apply (proj1 (Move_str_defined move_e4)); unfold on_board; simpl; lia.
Defined.

(** ** Knight moves *)

(** X17: on an 8x8 board every move that [get_knight_moves] appends is a
    knight's jump from the given square to a square of the board that
    holds no piece of the side to move. *)
Theorem knight_moves_are_jumps (s : GameState) (row column : Z) (moves : list Move) :
  board_wf (board s) ->
  extends (knight_jump (board s) (side_to_move s) row column) moves
    (get_knight_moves row column moves s).1.
Proof.
  intros Hwf. unfold get_knight_moves.
  destruct (find_pin row column true (pins s)) as [[pinned pd] ps].
  cbn [fst snd board set_pins]. rewrite opponent_is_other.
  apply (fold_left_inv _ (extends _ moves)); [apply extends_refl|].
  intros l d Hd Hl. eapply extends_trans; [exact Hl|].
  destruct (in_range _ _ && in_range _ _) eqn:Hr; [|apply extends_refl].
  apply on_board_of_range in Hr; [|exact Hwf].
  destruct (negb pinned); [|apply extends_refl].
  destruct (has_colour _ (other_colour _)) eqn:Hc.
  - apply extends_snoc. exists d. repeat split; try assumption; try apply Hr.
    apply has_colour_other. exact Hc.
  - destruct (square_eqb _ Empty) eqn:He; [|apply extends_refl].
    apply bool_decide_eq_true in He.
    apply extends_snoc. exists d. repeat split; try assumption; try apply Hr.
    rewrite He. reflexivity.
Qed.

Lemma knight_moves_are_jumps_witness :
  extends (knight_jump (board state_open) (side_to_move state_open) 7 6) []
    (get_knight_moves 7 6 [] state_open).1.
Proof.
  apply (knight_moves_are_jumps state_open 7 6 []).
  split; [reflexivity | repeat constructor].
Defined.

(** ** Pawn moves and promotion *)

Lemma back_row_cases (c : Colour) (row : Z) (b : bool) :
  (row + move_amount_of c =? back_row_of c) = b ->
  if b then row + move_amount_of c = back_row_of c
  else row + move_amount_of c <> back_row_of c.
Proof. intros <-. destruct (_ =? _) eqn:E; [apply Z.eqb_eq | apply Z.eqb_neq]; exact E. Qed.

Lemma pawn_capture_shape (s : GameState) (row column side : Z) (piece_pinned : bool)
    (pin_direction : option (Z * Z)) (opponent : Colour) (king_row king_column : Z)
    (moves : list Move) :
  extends (pawn_move_shape s row column) moves
    (pawn_capture s row column side piece_pinned pin_direction
       (move_amount_of (side_to_move s)) (back_row_of (side_to_move s)) opponent
       king_row king_column (rooks_alive s <? 2) moves).
Proof.
  unfold pawn_capture.
  destruct (_ && in_range 8 _); [|apply extends_refl].
  destruct (negb piece_pinned || _); [|apply extends_refl].
  match goal with
  | |- extends _ _ (if _ then _ else ?l) =>
    assert (Ha : extends (pawn_move_shape s row column) moves l)
  end.
  { destruct (has_colour _ opponent); [|apply extends_refl].
    destruct (row + move_amount_of (side_to_move s) =? back_row_of (side_to_move s)) eqn:Eb;
      apply back_row_cases in Eb; cbn [andb negb].
    - destruct (rooks_alive s <? 2) eqn:Er; [|apply extends_refl].
      apply Z.ltb_lt in Er. apply extends_snoc.
      split; [reflexivity|]. split; [left; reflexivity|].
      split; [split; [intros _; split; [reflexivity | exact Eb] | reflexivity]|].
      intros _. exact Er.
    - apply extends_snoc.
      split; [reflexivity|]. split; [left; reflexivity|].
      split; [split; [discriminate | intros [_ H]; contradiction]|]. discriminate. }
  case_bool_decide as Hep; [|exact Ha].
  destruct (if king_row =? row then _ else _) as [attacking blocking].
  destruct (negb attacking || blocking); [|exact Ha].
  eapply extends_trans; [exact Ha|]. apply extends_snoc.
  split; [reflexivity|]. split; [left; reflexivity|].
  split; [split; [discriminate | intros [H _]; discriminate H]|]. discriminate.
Qed.

(** X18: every move that [get_pawn_moves] appends starts on the given
    square and ends one row ahead, or two rows ahead from the pawn's
    starting row; it carries the promotion flag exactly when it is not an
    en-passant capture and ends on the back row, and only when the side to
    move has fewer than two rooks on the board - so with two rooks or more
    no advance or ordinary capture onto the back row is generated. *)
Theorem pawn_moves_promote_on_back_row (s : GameState) (row column : Z) (moves : list Move) :
  extends (pawn_move_shape s row column) moves (get_pawn_moves row column moves s).1.
Proof.
  unfold get_pawn_moves.
  destruct (find_pin row column true (pins s)) as [[pinned pd] ps].
  assert (Hshape : exists opp kr kc,
    (if white_to_move (set_pins s ps)
     then (-1, 6, 0, Black, white_king_location (set_pins s ps),
           count_piece (board s) (Occ White Rook))
     else (1, 1, 7, White, black_king_location (set_pins s ps),
           count_piece (board s) (Occ Black Rook)))
    = (move_amount_of (side_to_move s), start_row_of (side_to_move s),
       back_row_of (side_to_move s), opp, (kr, kc), rooks_alive s)).
  { unfold rooks_alive, side_to_move. simpl. destruct (white_to_move s); simpl.
    - destruct (white_king_location s) as [kr kc]. repeat eexists.
    - destruct (black_king_location s) as [kr kc]. repeat eexists. }
  destruct Hshape as (opp & kr & kc & ->). cbn [fst snd].
  eapply extends_trans; [|apply (pawn_capture_shape (set_pins s ps))].
  eapply extends_trans; [|apply (pawn_capture_shape (set_pins s ps))].
  destruct (in_range 8 _); [|apply extends_refl].
  destruct (square_eqb (sq (board s) (row + move_amount_of (side_to_move s)) column) Empty);
    [|apply extends_refl].
  match goal with
  | |- extends _ _ (if _ then ?l ++ _ else ?l) =>
    assert (Ha : extends (pawn_move_shape s row column) moves l)
  end.
  { destruct (negb pinned || _); [|apply extends_refl].
    destruct (row + move_amount_of (side_to_move s) =? back_row_of (side_to_move s)) eqn:Eb;
      apply back_row_cases in Eb; cbn [andb negb].
    - destruct (rooks_alive s <? 2) eqn:Er; [|apply extends_refl].
      apply Z.ltb_lt in Er. apply extends_snoc.
      split; [reflexivity|]. split; [left; reflexivity|].
      split; [split; [intros _; split; [reflexivity | exact Eb] | reflexivity]|].
      intros _. exact Er.
    - apply extends_snoc.
      split; [reflexivity|]. split; [left; reflexivity|].
      split; [split; [discriminate | intros [_ H]; contradiction]|]. discriminate. }
  destruct ((row =? start_row_of (side_to_move s)) && _) eqn:H2; [|exact Ha].
  apply andb_true_iff in H2 as [Hst _]. apply Z.eqb_eq in Hst.
  eapply extends_trans; [exact Ha|]. apply extends_snoc.
  split; [reflexivity|]. split; [right; split; [reflexivity | exact Hst]|].
  split; [|discriminate].
  split; [discriminate|]. intros [_ H]. exfalso.
  change (end_row (Move_init (row, column)
                     (row + 2 * move_amount_of (side_to_move s), column) (board s)
                     false false false))
    with (row + 2 * move_amount_of (side_to_move s)) in H.
  rewrite Hst in H. unfold side_to_move in H. destruct (white_to_move s); simpl in H; lia.
Qed.

(** ** The two attack scans agree *)

Lemma ally_not_king (p : Square) (ally : Colour) :
  p <> Occ ally King ->
  has_colour p ally && negb (has_kind p King) = has_colour p ally.
Proof.
  intros H. destruct p as [|c k]; [reflexivity|].
  destruct c, ally, k; simpl; try reflexivity; exfalso; apply H; reflexivity.
Qed.

Lemma pin_ray_flag_is_attack_ray (b : Board) (ally opponent : Colour)
    (start_row start_column j : Z) (d : Z * Z) (dists : list Z) :
  (forall i, i ∈ dists ->
     in_range (blen b) (start_row + d.1 * i) && in_range (blen b) (start_column + d.2 * i)
     = true ->
     sq b (start_row + d.1 * i) (start_column + d.2 * i) <> Occ ally King) ->
  forall (possible_pin : option Pin) (acc : Analysis),
    (pin_ray b ally opponent start_row start_column j d dists possible_pin acc).1.1
    = acc.1.1
      || match possible_pin with
         | Some _ => false
         | None => attack_ray b ally opponent start_row start_column j d dists
         end.
Proof.
  induction dists as [|i rest IH]; intros Hnk possible_pin acc; simpl.
  { destruct possible_pin; rewrite orb_false_r; reflexivity. }
  assert (Hrest : forall i', i' ∈ rest ->
            in_range (blen b) (start_row + d.1 * i')
            && in_range (blen b) (start_column + d.2 * i') = true ->
            sq b (start_row + d.1 * i') (start_column + d.2 * i') <> Occ ally King).
  { intros i' Hi'. apply Hnk. right. exact Hi'. }
  destruct (in_range _ _ && in_range _ _) eqn:Hr.
  2:{ destruct possible_pin; rewrite orb_false_r; reflexivity. }
  rewrite (ally_not_king _ ally (Hnk i ltac:(left) Hr)).
  destruct (has_colour _ ally).
  { destruct possible_pin.
    - rewrite orb_false_r. reflexivity.
    - rewrite (IH Hrest). simpl. reflexivity. }
  destruct (has_colour _ opponent); [|apply IH; exact Hrest].
  destruct (attack_pattern _ _ _ _).
  - destruct possible_pin; simpl.
    + rewrite orb_false_r. reflexivity.
    + rewrite orb_true_r. reflexivity.
  - destruct possible_pin; rewrite orb_false_r; reflexivity.
Qed.

Lemma fold_left_flag {A : Type} (f : Analysis -> A -> Analysis) (g : A -> bool)
    (l : list A) :
  (forall acc x, x ∈ l -> (f acc x).1.1 = acc.1.1 || g x) ->
  forall acc, (fold_left f l acc).1.1 = acc.1.1 || existsb g l.
Proof.
  induction l as [|x l IH]; intros Hf acc; simpl.
  - rewrite orb_false_r. reflexivity.
  - rewrite IH by (intros a y Hy; apply Hf; right; exact Hy).
    rewrite Hf by left. rewrite orb_assoc. reflexivity.
Qed.

Lemma existsb_ext_in {A : Type} (f g : A -> bool) (l : list A) :
  (forall x, x ∈ l -> f x = g x) -> existsb f l = existsb g l.
Proof.
  induction l as [|x l IH]; intros H; simpl; [reflexivity|].
  rewrite H by left. rewrite IH by (intros y Hy; apply H; right; exact Hy). reflexivity.
Qed.

Lemma knight_check_flag_is_attack (b : Board) (opponent : Colour) (start_row start_column : Z)
    (acc : Analysis) (m : Z * Z) :
  (knight_check b opponent start_row start_column acc m).1.1
  = acc.1.1 || knight_attack b opponent start_row start_column m.
Proof.
  unfold knight_check, knight_attack.
  destruct (in_range _ _ && in_range _ _); [|rewrite orb_false_r; reflexivity].
  destruct (has_colour _ _ && _); simpl;
    [rewrite orb_true_r | rewrite orb_false_r]; reflexivity.
Qed.

Lemma direction_not_null (jd : Z * (Z * Z)) :
  jd ∈ enumerate directions8 -> jd.2.1 <> 0 \/ jd.2.2 <> 0.
Proof.
  unfold enumerate. destruct jd as [j d]. intros H. apply elem_of_zip_r in H.
  unfold directions8 in H.
  repeat (apply elem_of_cons in H as [->|H]); try (simpl; lia). inversion H.
Qed.

(** The analyzer and [square_under_attack] agree on the cached king square. *)
Lemma check_flag_is_attack (s : GameState) :
  board_wf (board s) -> king_sync s (side_to_move s) ->
  (check_for_pins_and_checks s).1.1
  = square_under_attack s (king_location s (side_to_move s)).1
      (king_location s (side_to_move s)).2 (side_to_move s).
Proof.
  intros Hwf Hsync.
  unfold check_for_pins_and_checks, square_under_attack.
  assert (Hshape :
    (if white_to_move s then (Black, White, white_king_location s)
     else (White, Black, black_king_location s))
    = (if white_to_move s then Black else White, side_to_move s,
       king_location s (side_to_move s))).
  { unfold side_to_move. destruct (white_to_move s); reflexivity. }
  rewrite Hshape. clear Hshape.
  destruct (king_location s (side_to_move s)) as [kr kc] eqn:Hk. cbn [fst snd].
  set (opponent := if white_to_move s then Black else White).
  rewrite (fold_left_flag _ (knight_attack (board s) opponent kr kc))
    by (intros; apply knight_check_flag_is_attack).
  rewrite (fold_left_flag _
             (fun jd => attack_ray (board s) (side_to_move s) opponent kr kc jd.1 jd.2
                          (range_up 1 (blen (board s))))).
  { cbn [fst orb]. match goal with |- ?a || _ = _ => destruct a; reflexivity end. }
  intros acc jd Hjd.
  rewrite pin_ray_flag_is_attack_ray; [reflexivity|].
  intros i Hi Hr Hking.
  apply on_board_of_range in Hr; [|exact Hwf].
  specialize (Hsync _ _ Hr Hking). rewrite Hk in Hsync.
  unfold range_up in Hi. apply elem_of_seqZ in Hi.
  apply direction_not_null in Hjd.
  injection Hsync as E1 E2. destruct Hjd as [Hd|Hd]; nia.
Qed.

(** X19: on an 8x8 board on which every square holding a king of the side
    to move is the cached location of that king, the analyzer's in-check
    verdict equals [square_under_attack] asked for the cached king square
    with the side to move as ally. *)
Theorem in_check_is_square_under_attack (s : GameState) :
  board_wf (board s) -> king_sync s (side_to_move s) ->
  (check_for_pins_and_checks s).1.1
  = square_under_attack s (king_location s (side_to_move s)).1
      (king_location s (side_to_move s)).2 (side_to_move s).
Proof. exact (check_flag_is_attack s). Qed.

Lemma state_open_king_sync : king_sync state_open (side_to_move state_open).
Proof.
  intros r c [Hr Hc] H.
  assert (Hrc : (r = 0 \/ r = 1 \/ r = 2 \/ r = 3 \/ r = 4 \/ r = 5 \/ r = 6 \/ r = 7)
                /\ (c = 0 \/ c = 1 \/ c = 2 \/ c = 3 \/ c = 4 \/ c = 5 \/ c = 6 \/ c = 7))
    by lia.
  destruct Hrc as [Hr' Hc'].
  repeat (destruct Hr' as [->|Hr']); try subst r;
    repeat (destruct Hc' as [->|Hc']); try subst c;
    first [reflexivity | discriminate H].
Qed.

Lemma in_check_is_square_under_attack_witness :
  (check_for_pins_and_checks state_open).1.1
  = square_under_attack state_open (king_location state_open (side_to_move state_open)).1
      (king_location state_open (side_to_move state_open)).2 (side_to_move state_open).
Proof.
  apply (in_check_is_square_under_attack state_open).
  - split; [reflexivity | repeat constructor].
  - exact state_open_king_sync.
Defined.

(** ** The legal moves have the shapes the generators build *)

Lemma king_offset_small (off : Z * Z) :
  off ∈ king_offsets -> -1 <= off.1 <= 1.
Proof.
  unfold king_offsets. intros H.
  repeat (apply elem_of_cons in H as [->|H]); try (simpl; lia). inversion H.
Qed.

Lemma safe_king_step_generated (s : GameState) (row column : Z) (m : Move) :
  on_board row column -> safe_king_step s row column m ->
  generated (board s) (side_to_move s) (en_passant_possible s) m.
Proof.
  intros Hon (off & Hoff & -> & Hon' & _ & _).
  apply gen_plain; [exact Hon | exact Hon' |].
  right. apply king_offset_small in Hoff. lia.
Qed.

Lemma visit_square_generated (s : GameState) (row column : Z) (acc : list Move * GameState) :
  board_wf (board s) -> king_sync s (side_to_move s) -> on_board row column ->
  (exists ps, acc.2 = set_pins s ps)
  /\ extends (generated (board s) (side_to_move s) (en_passant_possible s)) [] acc.1 ->
  (exists ps, (visit_square row acc column).2 = set_pins s ps)
  /\ extends (generated (board s) (side_to_move s) (en_passant_possible s)) []
       (visit_square row acc column).1.
Proof.
  intros Hwf Hsync Hon [Hst Hext].
  split; [apply visit_square_kings; assumption|].
  destruct Hst as [ps0 Hacc]. destruct acc as [moves st]. simpl in Hacc, Hext. subst st.
  unfold visit_square. cbn [board white_to_move set_pins].
  destruct (_ || _) eqn:Hturn; [|exact Hext].
  destruct (sq (board s) row column) as [|c piece] eqn:Hsq; [exact Hext|].
  assert (Hc : c = side_to_move s).
  { unfold side_to_move. destruct c, (white_to_move s); simpl in Hturn;
      try reflexivity; discriminate. }
  subst c. eapply extends_trans; [exact Hext|].
  destruct piece; simpl.
  - apply (get_pawn_moves_spec (set_pins s ps0) row column moves Hwf Hon Hsq).
  - apply (get_rook_moves_spec (set_pins s ps0) Hwf (set_pins s ps0) row column moves
             eq_refl Hon). cbn [board set_pins]. rewrite Hsq. reflexivity.
  - apply (get_knight_moves_spec (set_pins s ps0) Hwf (set_pins s ps0) row column moves
             eq_refl Hon). cbn [board set_pins]. rewrite Hsq. reflexivity.
  - apply (get_bishop_moves_spec (set_pins s ps0) Hwf (set_pins s ps0) row column moves
             eq_refl Hon). cbn [board set_pins]. rewrite Hsq. reflexivity.
  - apply (get_queen_moves_spec (set_pins s ps0) row column moves Hwf Hon).
    cbn [board set_pins]. rewrite Hsq. reflexivity.
  - destruct (get_king_moves_spec (set_pins s ps0) row column moves Hwf) as [_ Hk].
    intros m Hm. destruct (Hk m Hm) as [H|H]; [left; exact H|]. right.
    apply (safe_king_step_generated (set_pins s ps0) row column m Hon H).
Qed.

Lemma get_all_possible_moves_generated (s : GameState) :
  board_wf (board s) -> king_sync s (side_to_move s) ->
  extends (generated (board s) (side_to_move s) (en_passant_possible s)) []
    (get_all_possible_moves s).1.
Proof.
  intros Hwf Hsync. unfold get_all_possible_moves.
  apply (fold_left_inv _
           (fun r : list Move * GameState =>
              (exists ps, r.2 = set_pins s ps)
              /\ extends (generated (board s) (side_to_move s) (en_passant_possible s))
                   [] r.1)).
  { split; [exists (pins s); destruct s; reflexivity | apply extends_refl]. }
  intros acc row Hrow Hacc. unfold visit_row.
  unfold range_up in Hrow. apply elem_of_seqZ in Hrow.
  rewrite (blen_wf _ Hwf) in Hrow.
  destruct Hacc as [[ps0 Hst] Hext]. rewrite Hst. cbn [board set_pins].
  rewrite (row_length_wf _ _ Hwf) by lia.
  apply (fold_left_inv _
           (fun r : list Move * GameState =>
              (exists ps, r.2 = set_pins s ps)
              /\ extends (generated (board s) (side_to_move s) (en_passant_possible s))
                   [] r.1)).
  { split; [rewrite Hst; eauto | exact Hext]. }
  intros a column Hcol Ha. unfold range_up in Hcol. apply elem_of_seqZ in Hcol.
  apply visit_square_generated; try assumption. split; lia.
Qed.

Lemma get_valid_moves_generated (s : GameState) :
  state_wf s -> king_sync s (side_to_move s) ->
  forall m, m ∈ (get_valid_moves s).1 ->
    generated (board s) (side_to_move s) (en_passant_possible s) m.
Proof.
  intros (Hwf & Hwk & Hbk) Hsync m Hm.
  unfold get_valid_moves in Hm.
  set (s1 := set_analysis s (check_for_pins_and_checks s)) in *.
  assert (Hk : (if white_to_move s1 then white_king_location s1 else black_king_location s1)
               = king_location s (side_to_move s)).
  { unfold side_to_move. simpl. destruct (white_to_move s); reflexivity. }
  rewrite Hk in Hm.
  assert (Hkon : on_board (king_location s (side_to_move s)).1
                   (king_location s (side_to_move s)).2).
  { unfold side_to_move. destruct (white_to_move s); assumption. }
  destruct (king_location s (side_to_move s)) as [kr kc]. cbn [fst snd] in Hkon.
  assert (Hking : forall x, x ∈ (get_king_moves kr kc [] s1).1 ->
                    generated (board s) (side_to_move s) (en_passant_possible s) x).
  { intros x Hx. destruct (get_king_moves_spec s1 kr kc [] Hwf) as [_ Hext].
    destruct (Hext x Hx) as [H|H]; [inversion H|].
    apply (safe_king_step_generated s1 kr kc x Hkon H). }
  assert (Hall : forall x, x ∈ (get_all_possible_moves s1).1 ->
                   generated (board s) (side_to_move s) (en_passant_possible s) x).
  { intros x Hx.
    destruct (get_all_possible_moves_generated s1 Hwf Hsync x Hx) as [H|H];
      [inversion H | exact H]. }
  destruct (in_check s1).
  - destruct (checks s1) as [|check [|c2 cs]].
    + destruct (get_king_moves kr kc [] s1) as [vm s2]. apply Hking. exact Hm.
    + destruct (get_all_possible_moves s1) as [vm s2].
      destruct check as [[[cr cc] d0] d1]. cbn [fst snd] in Hm, Hall.
      apply Hall. eapply drop_unhelpful_subset. exact Hm.
    + destruct (get_king_moves kr kc [] s1) as [vm s2]. apply Hking. exact Hm.
  - destruct (get_all_possible_moves s1) as [vm s2]. apply Hall. exact Hm.
Qed.

(** ** The invariant of the reachable states *)

Lemma make_move_spec (s : GameState) (sr sc er ec : Z) (ep pr ca : bool) :
  let m := Move_init (sr, sc) (er, ec) (board s) ep pr ca in
  board_wf (board s) -> on_board sr sc -> on_board er ec ->
  exists s1,
    make_move s m = Some s1
    /\ board_wf (board s1)
    /\ (forall r c, on_board r c ->
          sq (board s1) r c
          = if ep && bool_decide ((r, c) = (sr, ec)) then Empty
            else if bool_decide ((r, c) = (er, ec))
                 then (if pr then promoted (sq (board s) sr sc) else sq (board s) sr sc)
            else if bool_decide ((r, c) = (sr, sc)) then Empty
            else sq (board s) r c)
    /\ white_to_move s1 = negb (white_to_move s)
    /\ white_king_location s1
       = (if square_eqb (sq (board s) sr sc) (Occ White King) then (er, ec)
          else white_king_location s)
    /\ black_king_location s1
       = (if square_eqb (sq (board s) sr sc) (Occ White King) then black_king_location s
          else if square_eqb (sq (board s) sr sc) (Occ Black King) then (er, ec)
          else black_king_location s)
    /\ en_passant_possible s1
       = (if has_kind (sq (board s) sr sc) Pawn && (Z.abs (sr - er) =? 2)
          then Some ((sr + er) `div` 2, sc) else None)
    /\ logs_ok s1.
Proof.
  intros m Hwf Hs He.
  assert (Hse : on_board sr ec) by (destruct Hs, He; split; assumption).
  set (pm := sq (board s) sr sc).
  destruct (board_set_spec (board s) sr sc Empty Hwf Hs) as (b1 & E1 & W1 & A1 & O1).
  destruct (board_set_spec b1 er ec pm W1 He) as (b2 & E2 & W2 & A2 & O2).
  assert (H3 : exists b3, (if pr then board_set b2 er ec (promoted pm) else Some b2) = Some b3
                /\ board_wf b3
                /\ sq b3 er ec = (if pr then promoted pm else pm)
                /\ forall r c, on_board r c -> (r, c) <> (er, ec) -> sq b3 r c = sq b2 r c).
  { destruct pr.
    - destruct (board_set_spec b2 er ec (promoted pm) W2 He) as (b3 & E3 & W3 & A3 & O3).
      exists b3. auto.
    - exists b2. auto. }
  destruct H3 as (b3 & E3 & W3 & A3 & O3).
  assert (H4 : exists b4, (if ep then board_set b3 sr ec Empty else Some b3) = Some b4
                /\ board_wf b4
                /\ forall r c, on_board r c ->
                     sq b4 r c = if ep && bool_decide ((r, c) = (sr, ec)) then Empty
                                 else sq b3 r c).
  { destruct ep.
    - destruct (board_set_spec b3 sr ec Empty W3 Hse) as (b4 & E4 & W4 & A4 & O4).
      exists b4. split; [exact E4|]. split; [exact W4|].
      intros r c Hon. simpl. case_bool_decide as E.
      + injection E as -> ->. exact A4.
      + apply O4; assumption.
    - exists b3. auto. }
  destruct H4 as (b4 & E4 & W4 & O4).
  assert (Hsr : start_row m = sr) by reflexivity.
  assert (Hsc : start_column m = sc) by reflexivity.
  assert (Her : end_row m = er) by reflexivity.
  assert (Hec : end_column m = ec) by reflexivity.
  assert (Hpr : is_pawn_promotion m = pr) by reflexivity.
  assert (Hepf : is_en_passant_move m = ep) by reflexivity.
  assert (Hpm : piece_moved m = pm) by reflexivity.
  clearbody m.
  unfold make_move. rewrite Hsr, Hsc, Her, Hec, Hpr, Hepf, Hpm.
  rewrite E1. simpl. rewrite E2. simpl. rewrite E3. simpl. rewrite E4. simpl.
  eexists. split; [reflexivity|]. simpl.
  split; [exact W4|].
  split.
  { intros r c Hon. rewrite O4 by exact Hon.
    destruct (ep && bool_decide ((r, c) = (sr, ec))); [reflexivity|].
    case_bool_decide as E; [injection E as -> ->; exact A3|].
    rewrite O3 by assumption.
    rewrite O2 by assumption.
    case_bool_decide as E'; [injection E' as -> ->; exact A1|].
    apply O1; assumption. }
  repeat (split; [reflexivity|]).
  split; apply last_snoc.
Qed.

Lemma two_step_target (c : Colour) :
  (start_row_of c + (start_row_of c + 2 * move_amount_of c)) `div` 2
  = start_row_of c + move_amount_of c.
Proof. destruct c; reflexivity. Qed.

Lemma make_move_keeps_inv (s : GameState) (m : Move) :
  state_inv s ->
  generated (board s) (side_to_move s) (en_passant_possible s) m ->
  exists s1, make_move s m = Some s1
             /\ state_inv s1
             /\ undo_move s1 = Some (set_terminal s false false).
Proof.
  intros ((Hwf & Hwk & Hbk) & HsW & HsB & Hepok & Hlogs) Hgen.
  assert (Hshape : exists sr sc er ec ep pr,
    m = Move_init (sr, sc) (er, ec) (board s) ep pr false
    /\ on_board sr sc /\ on_board er ec
    /\ (ep = true -> sq (board s) er ec = Empty
                     /\ sq (board s) sr ec
                        = piece_captured (Move_init (sr, sc) (er, ec) (board s) ep pr false))
    /\ (has_kind (sq (board s) sr sc) Pawn && (Z.abs (sr - er) =? 2) = true ->
        sq (board s) sr sc = Occ (side_to_move s) Pawn
        /\ sr = start_row_of (side_to_move s)
        /\ er = sr + 2 * move_amount_of (side_to_move s)
        /\ ec = sc /\ ep = false /\ pr = false
        /\ sq (board s) (sr + move_amount_of (side_to_move s)) sc = Empty)).
  { destruct Hgen as [row col er ec Hon Hon' Hnot | row col ec Hon Hon' Hp
                     | row col Hon Hrow Hp He1 He2 | row col ec Hon Hon' Hne Hp Hep].
    - exists row, col, er, ec, false, false.
      split; [reflexivity|]. split; [exact Hon|]. split; [exact Hon'|].
      split; [discriminate|].
      intros H. apply andb_true_iff in H as [H1 H2]. apply Z.eqb_eq in H2.
      destruct Hnot; congruence.
    - exists row, col, (row + move_amount_of (side_to_move s)), ec, false, true.
      split; [reflexivity|]. split; [exact Hon|]. split; [exact Hon'|].
      split; [discriminate|].
      intros H. apply andb_true_iff in H as [_ H2]. apply Z.eqb_eq in H2.
      exfalso. revert H2. apply move_amount_abs.
    - exists row, col, (row + 2 * move_amount_of (side_to_move s)), col, false, false.
      assert (Hon2 : on_board (row + 2 * move_amount_of (side_to_move s)) col).
      { destruct Hon. subst row. destruct (side_to_move s); simpl; split; lia. }
      split; [reflexivity|]. split; [exact Hon|]. split; [exact Hon2|].
      split; [discriminate|].
      intros _. repeat (split; [first [assumption | reflexivity]|]). exact He1.
    - exists row, col, (row + move_amount_of (side_to_move s)), ec, true, false.
      split; [reflexivity|]. split; [exact Hon|]. split; [exact Hon'|]. split.
      + intros _. unfold ep_ok in Hepok. rewrite Hep in Hepok.
        destruct Hepok as (_ & Hr & Hempty & Hpawn).
        split; [exact Hempty|].
        replace (row + move_amount_of (side_to_move s)
                 + move_amount_of (other_colour (side_to_move s))) with row in Hpawn
          by (destruct (side_to_move s); simpl; lia).
        rewrite Hpawn. unfold Move_init. cbn. rewrite Hp.
        destruct (side_to_move s); reflexivity.
      + intros H. apply andb_true_iff in H as [_ H2]. apply Z.eqb_eq in H2.
        exfalso. revert H2. apply move_amount_abs. }
  destruct Hshape as (sr & sc & er & ec & ep & pr & -> & Hs & He & Hepc & Htwo).
  destruct (make_move_spec s sr sc er ec ep pr false Hwf Hs He)
    as (s1 & Emake & W1 & Hboard & Hturn & Hwkl & Hbkl & Hep1 & Hlogs1).
  assert (Hundo : exists s1', make_move s (Move_init (sr, sc) (er, ec) (board s) ep pr false)
                              = Some s1'
                              /\ undo_move s1' = Some (set_terminal s false false)).
  { apply make_undo_round_trip; try assumption.
    - intros H. apply (HsW sr sc Hs). exact H.
    - intros H. apply (HsB sr sc Hs). exact H. }
  destruct Hundo as (s1' & Emake' & Hundo). rewrite Emake in Emake'.
  injection Emake' as <-.
  exists s1. split; [exact Emake|]. split; [|exact Hundo].
  assert (Hsync : forall c, king_sync s1 c).
  { intros c r col Hon Hking. rewrite Hboard in Hking by exact Hon.
    destruct (ep && bool_decide ((r, col) = (sr, ec))); [discriminate|].
    case_bool_decide as Eend.
    - assert (Hpm : sq (board s) sr sc = Occ c King).
      { destruct pr; [|exact Hking].
        destruct (sq (board s) sr sc) as [|c' k']; simpl in Hking; discriminate. }
      destruct c; simpl; [rewrite Hwkl | rewrite Hbkl]; rewrite Hpm;
        unfold square_eqb; simpl; congruence.
    - case_bool_decide as Estart; [discriminate|].
      assert (Hold : king_location s c = (r, col)).
      { destruct c; [apply HsW | apply HsB]; assumption. }
      assert (Hnot : sq (board s) sr sc <> Occ c King).
      { intros Hpm. apply Estart.
        assert (Hk : king_location s c = (sr, sc)).
        { destruct c; [apply HsW | apply HsB]; assumption. }
        congruence. }
      destruct c; simpl; simpl in Hold; [rewrite Hwkl | rewrite Hbkl].
      + unfold square_eqb. rewrite bool_decide_eq_false_2 by exact Hnot. exact Hold.
      + unfold square_eqb. rewrite (bool_decide_eq_false_2 _ Hnot).
        destruct (bool_decide _); exact Hold. }
  split.
  { split; [exact W1|]. rewrite Hwkl, Hbkl.
    split; repeat (destruct (square_eqb _ _)); assumption. }
  split; [apply Hsync|]. split; [apply Hsync|]. split; [|exact Hlogs1].
  unfold ep_ok. rewrite Hep1.
  destruct (has_kind (sq (board s) sr sc) Pawn && (Z.abs (sr - er) =? 2)) eqn:E2;
    [|exact I].
  destruct (Htwo eq_refl) as (Hp & Hsr & Her & Hec & -> & -> & Hmid).
  assert (Hside : other_colour (side_to_move s1) = side_to_move s).
  { unfold side_to_move. rewrite Hturn. destruct (white_to_move s); reflexivity. }
  rewrite Hside. subst sr er ec.
  rewrite two_step_target.
  split; [apply Hs|]. split; [reflexivity|].
  assert (Hon1 : on_board (start_row_of (side_to_move s) + move_amount_of (side_to_move s)) sc).
  { destruct Hs. destruct (side_to_move s); simpl; split; lia. }
  split.
  - rewrite Hboard by exact Hon1. simpl.
    rewrite bool_decide_eq_false_2
      by (intros E; injection E; destruct (side_to_move s); simpl; lia).
    rewrite bool_decide_eq_false_2
      by (intros E; injection E; destruct (side_to_move s); simpl; lia).
    exact Hmid.
  - replace (start_row_of (side_to_move s) + move_amount_of (side_to_move s)
             + move_amount_of (side_to_move s))
      with (start_row_of (side_to_move s) + 2 * move_amount_of (side_to_move s)) by lia.
    rewrite Hboard by exact He. simpl.
    rewrite bool_decide_eq_true_2 by reflexivity. exact Hp.
Qed.

Lemma state_inv_core (s t : GameState) : core s = core t -> state_inv s -> state_inv t.
Proof.
  unfold core. destruct s, t. simpl. intros H. simplify_eq. exact (fun H => H).
Qed.

Lemma core_fields (s t : GameState) :
  core s = core t ->
  board s = board t /\ white_to_move s = white_to_move t
  /\ en_passant_possible s = en_passant_possible t.
Proof. unfold core. intros H. injection H. intros. repeat split; assumption. Qed.

Lemma undo_move_core (s t : GameState) :
  core s = core t ->
  match undo_move s, undo_move t with
  | Some s', Some t' => core s' = core t'
  | None, None => True
  | _, _ => False
  end.
Proof.
  unfold core.
  destruct s as [b1 w1 ml1 wk1 bk1 cm1 sm1 ic1 ps1 cs1 ep1 epl1 ca1 cb1 cc1 cd1 cl1].
  destruct t as [b2 w2 ml2 wk2 bk2 cm2 sm2 ic2 ps2 cs2 ep2 epl2 ca2 cb2 cc2 cd2 cl2].
  simpl. intros H. injection H as <- <- <- <- <- <- <- <- <- <- <- <-.
  unfold undo_move. cbn [move_log board en_passant_possible_log castle_rights_log
                         white_to_move white_king_location black_king_location].
  case_bool_decide; [reflexivity|].
  destruct (py_pop ml1) as [[log m]|]; simpl; [|exact I].
  destruct (board_set b1 _ _ _) as [b3|]; simpl; [|exact I].
  destruct (board_set b3 _ _ _) as [b4|]; simpl; [|exact I].
  destruct (if is_en_passant_move m then _ else _) as [b5|]; simpl; [|exact I].
  destruct (py_pop epl1) as [[eplog e]|]; simpl; [|exact I].
  destruct (list.last eplog) as [ep|]; simpl; [|exact I].
  destruct (py_pop cl1) as [[crlog cr]|]; simpl; [|exact I].
  destruct (list.last crlog) as [rights|]; simpl; [|exact I].
  reflexivity.
Qed.

Lemma history_inv_core (s t : GameState) : core s = core t -> history_inv s -> history_inv t.
Proof.
  intros Hcore Hs k. revert s t Hcore Hs.
  induction k as [|k IH]; intros s t Hcore Hs.
  - exists t. split; [reflexivity|]. destruct (Hs 0%nat) as (s' & E & Hinv).
    injection E as <-. eapply state_inv_core; eassumption.
  - pose proof (undo_move_core s t Hcore) as Hu.
    destruct (Hs (S k)) as (s' & E & Hinv). simpl in E.
    destruct (undo_move s) as [s1|] eqn:Es; [|discriminate]. simpl in E.
    destruct (undo_move t) as [t1|] eqn:Et; [|contradiction].
    simpl. rewrite Et. simpl. apply (IH s1 t1 Hu).
    intros k'. destruct (Hs (S k')) as (s'' & E' & Hinv'). simpl in E'.
    rewrite Es in E'. simpl in E'. eauto.
Qed.

Lemma get_valid_moves_core (s : GameState) :
  board_wf (board s) -> king_sync s (side_to_move s) ->
  core (get_valid_moves s).2 = core s.
Proof.
  intros Hwf Hsync.
  destruct (get_valid_moves_fields s) as (Hp & _).
  destruct (get_valid_moves_kings s Hwf Hsync) as [Hw Hb].
  unfold core, persistent in *. congruence.
Qed.

Lemma initial_king_sync (c : Colour) : king_sync GameState_init c.
Proof.
  intros r col [Hr Hc] H.
  assert (Hrc : (r = 0 \/ r = 1 \/ r = 2 \/ r = 3 \/ r = 4 \/ r = 5 \/ r = 6 \/ r = 7)
                /\ (col = 0 \/ col = 1 \/ col = 2 \/ col = 3 \/ col = 4 \/ col = 5
                    \/ col = 6 \/ col = 7)) by lia.
  destruct Hrc as [Hr' Hc'].
  destruct c;
    repeat (destruct Hr' as [->|Hr']); try subst r;
      repeat (destruct Hc' as [->|Hc']); try subst col;
      first [reflexivity | discriminate H].
Qed.

Lemma initial_state_inv : state_inv GameState_init.
Proof.
  split.
  { split; [exact initial_board_wf|]. unfold on_board. simpl. lia. }
  split; [apply initial_king_sync|]. split; [apply initial_king_sync|].
  split; [exact I|]. split; reflexivity.
Qed.

Lemma reachable_history_inv (s : GameState) : reachable s -> history_inv s.
Proof.
  induction 1 as [|s Hr IH|s m s' Hr IH Hm Hmake|s s' Hr IH Hundo].
  - intros k. exists GameState_init. split; [|exact initial_state_inv].
    induction k as [|k IHk]; [reflexivity | exact IHk].
  - destruct (IH 0%nat) as (s0 & E & (Hwf & Hw & Hb & _)). injection E as <-.
    apply (history_inv_core s); [|exact IH].
    symmetry. apply get_valid_moves_core; [apply Hwf|].
    unfold side_to_move. destruct (white_to_move s); assumption.
  - destruct (IH 0%nat) as (s0 & E & Hinv). injection E as <-.
    pose proof Hinv as (Hwf & Hw & Hb & _).
    assert (Hsync : king_sync s (side_to_move s)).
    { unfold side_to_move. destruct (white_to_move s); assumption. }
    assert (Hcore : core (get_valid_moves s).2 = core s).
    { apply get_valid_moves_core; [apply Hwf | exact Hsync]. }
    assert (Hinv0 : state_inv (get_valid_moves s).2).
    { apply (state_inv_core s); [symmetry; exact Hcore | exact Hinv]. }
    assert (Hgen : generated (board (get_valid_moves s).2)
                     (side_to_move (get_valid_moves s).2)
                     (en_passant_possible (get_valid_moves s).2) m).
    { pose proof (get_valid_moves_generated s Hwf Hsync m Hm) as Hg.
      apply core_fields in Hcore as (E1 & E2 & E3).
      unfold side_to_move. rewrite E1, E2, E3. exact Hg. }
    destruct (make_move_keeps_inv _ m Hinv0 Hgen) as (s1 & E1 & Hinv1 & Hu).
    rewrite Hmake in E1. injection E1 as <-.
    intros [|k].
    + exists s'. split; [reflexivity | exact Hinv1].
    + simpl. rewrite Hu. simpl.
      apply (history_inv_core s); [|exact IH].
      rewrite <- Hcore. reflexivity.
  - intros k. destruct (IH (S k)) as (s1 & E & Hinv). simpl in E.
    rewrite Hundo in E. simpl in E. eauto.
Qed.

(** The invariant holds in every reachable state. *)
Lemma reachable_inv (s : GameState) : reachable s -> state_inv s.
Proof.
  intros Hr. destruct (reachable_history_inv s Hr 0%nat) as (s' & E & Hinv).
  injection E as <-. exact Hinv.
Qed.

(** X20: every state the engine reaches from a new game - by calls of
    [get_valid_moves], by [make_move] on a move that call returned, and by
    [undo_move] - has an 8x8 board and cached king locations on it; every
    square holding a king is the cached location of that king; the
    en-passant target, if any, is the empty square behind a pawn of the
    side that just moved, which stands one row further; and the current
    en-passant target and castle rights are the last entries of their
    logs. *)
Theorem reachable_state_inv (s : GameState) : reachable s -> state_inv s.
Proof. exact (reachable_inv s). Qed.

Lemma reachable_state_inv_witness : state_inv state_en_passant.
Proof. apply (reachable_state_inv state_en_passant). exact state_en_passant_reachable. Defined.

(** X21: in every reachable state, each move that [get_valid_moves]
    returns can be made and then taken back: [make_move] and [undo_move]
    succeed and give back the state left by [get_valid_moves] with
    [checkmate] and [stalemate] cleared - the board, the side to move, the
    move log, both king caches, the en-passant target, the castle flags
    and both logs are those before the call. *)
Theorem reachable_make_then_undo (s : GameState) (m : Move) :
  reachable s -> m ∈ (get_valid_moves s).1 ->
  exists s1,
    make_move (get_valid_moves s).2 m = Some s1
    /\ undo_move s1 = Some (set_terminal (get_valid_moves s).2 false false)
    /\ core (set_terminal (get_valid_moves s).2 false false) = core s.
Proof.
  intros Hr Hm.
  pose proof (reachable_inv s Hr) as Hinv.
  pose proof Hinv as (Hwf & Hw & Hb & _).
  assert (Hsync : king_sync s (side_to_move s)).
  { unfold side_to_move. destruct (white_to_move s); assumption. }
  assert (Hcore : core (get_valid_moves s).2 = core s).
  { apply get_valid_moves_core; [apply Hwf | exact Hsync]. }
  assert (Hinv0 : state_inv (get_valid_moves s).2).
  { apply (state_inv_core s); [symmetry; exact Hcore | exact Hinv]. }
  assert (Hgen : generated (board (get_valid_moves s).2)
                   (side_to_move (get_valid_moves s).2)
                   (en_passant_possible (get_valid_moves s).2) m).
  { pose proof (get_valid_moves_generated s Hwf Hsync m Hm) as Hg.
    apply core_fields in Hcore as (E1 & E2 & E3).
    unfold side_to_move. rewrite E1, E2, E3. exact Hg. }
  destruct (make_move_keeps_inv _ m Hinv0 Hgen) as (s1 & E1 & _ & Hu).
  exists s1. split; [exact E1|]. split; [exact Hu|].
  rewrite <- Hcore. reflexivity.
Qed.

Lemma reachable_make_then_undo_witness :
  exists s1,
    make_move (get_valid_moves state_en_passant).2
      (Move_init (3, 4) (2, 3) (board state_en_passant) true false false) = Some s1
    /\ undo_move s1 = Some (set_terminal (get_valid_moves state_en_passant).2 false false)
    /\ core (set_terminal (get_valid_moves state_en_passant).2 false false)
       = core state_en_passant.
Proof.
  apply (reachable_make_then_undo state_en_passant
           (Move_init (3, 4) (2, 3) (board state_en_passant) true false false)).
  - exact state_en_passant_reachable.
  - by_lookup.
Defined.

(** X22: in every reachable state the analyzer's in-check verdict equals
    [square_under_attack] asked for the cached king square of the side to
    move, with that side as ally. *)
Theorem reachable_in_check_is_attack (s : GameState) :
  reachable s ->
  (check_for_pins_and_checks s).1.1
  = square_under_attack s (king_location s (side_to_move s)).1
      (king_location s (side_to_move s)).2 (side_to_move s).
Proof.
  intros Hr. destruct (reachable_inv s Hr) as ((Hwf & _) & Hw & Hb & _).
  apply check_flag_is_attack; [exact Hwf|].
  unfold side_to_move. destruct (white_to_move s); assumption.
Qed.

Lemma reachable_in_check_is_attack_witness :
  (check_for_pins_and_checks state_en_passant).1.1
  = square_under_attack state_en_passant
      (king_location state_en_passant (side_to_move state_en_passant)).1
      (king_location state_en_passant (side_to_move state_en_passant)).2
      (side_to_move state_en_passant).
Proof.
  apply (reachable_in_check_is_attack state_en_passant). exact state_en_passant_reachable.
Defined.

(** ** Teleswap and the king cache *)



